(** * goPost: the curl-command parser, embedded and verified

    The repository holds two variants of one program that turns recorded
    curl commands into the entries of a Postman collection:

    - [src/main.go]: the method and URL are read from the quoted form
      [--request METHOD 'url'];
    - [src/unnamed/part_000]: the method and URL are read from the form
      [--request METHOD --url token].

    Both are embedded below ([Module Main] and [Module Part000]) on top of a
    model of the parts of Go's [strings], [regexp] and [net/url] packages
    that [parseCurlCommand] calls.  A Go [string] is a sequence of bytes: it
    is a [string] of Rocq, whose characters are the 256 values of [ascii]. *)

From Stdlib Require Import String Ascii List Bool Arith NArith Lia.
From Stdlib Require Import Permutation.
From stdpp Require Import gmap strings.
Import ListNotations.
Open Scope string_scope.

(** ** Bytes *)

Definition byte_between (lo hi c : ascii) : bool :=
  ((N_of_ascii lo <=? N_of_ascii c) && (N_of_ascii c <=? N_of_ascii hi))%N.

Definition is_lower (c : ascii) : bool := byte_between "a" "z" c.
Definition is_upper (c : ascii) : bool := byte_between "A" "Z" c.
Definition is_digit (c : ascii) : bool := byte_between "0" "9" c.
Definition is_alpha (c : ascii) : bool := is_lower c || is_upper c.
Definition is_alnum (c : ascii) : bool := is_alpha c || is_digit c.

(** [c] is one of the bytes of [set]. *)
Fixpoint byte_in (c : ascii) (set : string) : bool :=
  match set with
  | EmptyString => false
  | String d set' => Ascii.eqb c d || byte_in c set'
  end.

Definition LF : ascii := ascii_of_nat 10.
Definition DQUOTE : ascii := ascii_of_nat 34.

(** ** Slices *)

(** [s[n:]] *)
Fixpoint sdrop (n : nat) (s : string) : string :=
  match n, s with
  | O, _ => s
  | S n', String _ s' => sdrop n' s'
  | S _, EmptyString => EmptyString
  end.

(** [s[:n]] *)
Fixpoint stake (n : nat) (s : string) : string :=
  match n, s with
  | O, _ => EmptyString
  | S n', String c s' => String c (stake n' s')
  | S _, EmptyString => EmptyString
  end.

Fixpoint sall (p : ascii -> bool) (s : string) : bool :=
  match s with
  | EmptyString => true
  | String c s' => p c && sall p s'
  end.

Definition is_empty (s : string) : bool :=
  match s with EmptyString => true | String _ _ => false end.

(** ** Package [strings] *)

Module strings.

Definition HasPrefix (s prefix : string) : bool := String.prefix prefix s.

Fixpoint Contains (s substr : string) : bool :=
  HasPrefix s substr ||
  match s with
  | EmptyString => false
  | String _ s' => Contains s' substr
  end.

(** [Index] returns [-1] when [substr] is absent: [None] here. *)
Fixpoint Index (s substr : string) : option nat :=
  if HasPrefix s substr then Some 0
  else match s with
       | EmptyString => None
       | String _ s' => option_map S (Index s' substr)
       end.

Fixpoint LastIndex (s substr : string) : option nat :=
  match s with
  | EmptyString => if HasPrefix s substr then Some 0 else None
  | String _ s' =>
      match LastIndex s' substr with
      | Some i => Some (S i)
      | None => if HasPrefix s substr then Some 0 else None
      end
  end.

Fixpoint HasSuffix (s suffix : string) : bool :=
  String.eqb s suffix ||
  match s with
  | EmptyString => false
  | String _ s' => HasSuffix s' suffix
  end.

(** [Cut(s, sep)]: the text before and after the first [sep], and whether
    [sep] was found; [(s, "", false)] when it is absent. *)
Definition Cut (s sep : string) : string * string * bool :=
  match Index s sep with
  | Some i => (stake i s, sdrop (i + String.length sep) s, true)
  | None => (s, EmptyString, false)
  end.

(** The walk shared by [Replace], [Count] and [Split] for a non-empty
    pattern: [skip] bytes of an occurrence already found remain to be
    passed over. *)
Fixpoint replace_from (old new : string) (skip : nat) (s : string) : string :=
  match s with
  | EmptyString => EmptyString
  | String c s' =>
      match skip with
      | S k => replace_from old new k s'
      | O =>
          if HasPrefix s old
          then new ++ replace_from old new (String.length old - 1) s'
          else String c (replace_from old new 0 s')
      end
  end.

(** [Replace(s, old, new, -1)] for a non-empty [old]: every non-overlapping
    occurrence of [old], from the left, becomes [new]. *)
Definition ReplaceAll (s old new : string) : string := replace_from old new 0 s.

Fixpoint count_from (substr : string) (skip : nat) (s : string) : nat :=
  match s with
  | EmptyString => 0
  | String c s' =>
      match skip with
      | S k => count_from substr k s'
      | O =>
          if HasPrefix s substr
          then S (count_from substr (String.length substr - 1) s')
          else count_from substr 0 s'
      end
  end.

(** [Count(s, substr)] for a non-empty [substr]. *)
Definition Count (s substr : string) : nat := count_from substr 0 s.

Fixpoint split_from (sep : string) (skip : nat) (s : string) : list string :=
  match s with
  | EmptyString => [EmptyString]
  | String c s' =>
      match skip with
      | S k => split_from sep k s'
      | O =>
          if HasPrefix s sep
          then EmptyString :: split_from sep (String.length sep - 1) s'
          else match split_from sep 0 s' with
               | seg :: segs => String c seg :: segs
               | [] => [String c EmptyString]
               end
      end
  end.

(** [Split(s, sep)] for a non-empty [sep]: the segments between the
    occurrences of [sep]; never an empty slice. *)
Definition Split (s sep : string) : list string := split_from sep 0 s.

Fixpoint TrimLeft (s cutset : string) : string :=
  match s with
  | EmptyString => EmptyString
  | String c s' => if byte_in c cutset then TrimLeft s' cutset else s
  end.

Fixpoint TrimRight (s cutset : string) : string :=
  match s with
  | EmptyString => EmptyString
  | String c s' =>
      match TrimRight s' cutset with
      | EmptyString => if byte_in c cutset then EmptyString else String c EmptyString
      | t => String c t
      end
  end.

Definition Trim (s cutset : string) : string :=
  TrimRight (TrimLeft s cutset) cutset.

Definition lower_byte (c : ascii) : ascii :=
  if is_upper c then ascii_of_N (N_of_ascii c + 32) else c.

(** [ToLower] on ASCII text (its argument here, a URL scheme, is ASCII). *)
Fixpoint ToLower (s : string) : string :=
  match s with
  | EmptyString => EmptyString
  | String c s' => String (lower_byte c) (ToLower s')
  end.

End strings.

(** ** Package [regexp]

    The patterns of the program use literals, capture groups that are not
    nested, and the repetitions [x*], [x+] and [x*?] of one character class.
    Go's [regexp] returns the leftmost match and, among the matches that
    start there, the one a backtracking search finds first: a greedy
    repetition first tries to take one more byte, a lazy one first tries to
    stop.  The classes of the patterns are sets of ASCII bytes or their
    complements, every byte of a multi-byte rune lies in each complement,
    and each pattern continues with an ASCII literal after a complement, so
    matching byte by byte finds the same spans as matching rune by rune. *)

Module regexp.

Inductive Regexp : Type :=
| Lit (text : string)                        (* the bytes of [text] *)
| Star (greedy : bool) (cls : ascii -> bool) (* [x*] and [x*?] *)
| Plus (greedy : bool) (cls : ascii -> bool) (* [x+] and [x+?] *)
| Cap (r : Regexp)                           (* [(r)] *)
| Seq (r1 r2 : Regexp).

(** What is left of the input after a match, and the groups closed so
    far, in the order of their closing (the order of their numbers, as no
    group is nested). *)
Definition Cont (A : Type) : Type := string -> list string -> option A.

Section Backtrack.
Context {A : Type}.

Fixpoint star_greedy (cls : ascii -> bool) (s : string)
         (k : string -> option A) : option A :=
  match s with
  | String c s' =>
      if cls c
      then match star_greedy cls s' k with
           | Some r => Some r
           | None => k s
           end
      else k s
  | EmptyString => k s
  end.

Fixpoint star_lazy (cls : ascii -> bool) (s : string)
         (k : string -> option A) : option A :=
  match k s with
  | Some r => Some r
  | None =>
      match s with
      | String c s' => if cls c then star_lazy cls s' k else None
      | EmptyString => None
      end
  end.

Definition star (greedy : bool) := if greedy then star_greedy else star_lazy.

Fixpoint run (r : Regexp) (s : string) (caps : list string)
         (k : Cont A) : option A :=
  match r with
  | Lit text =>
      if strings.HasPrefix s text
      then k (sdrop (String.length text) s) caps
      else None
  | Star greedy cls => star greedy cls s (fun s' => k s' caps)
  | Plus greedy cls =>
      match s with
      | String c s' =>
          if cls c then star greedy cls s' (fun s'' => k s'' caps) else None
      | EmptyString => None
      end
  | Cap r1 =>
      run r1 s caps
          (fun s' caps' =>
             k s' (caps' ++ [stake (String.length s - String.length s') s])%list)
  | Seq r1 r2 => run r1 s caps (fun s' caps' => run r2 s' caps' k)
  end.
End Backtrack.

(** A match that starts at the first byte of [s]: the groups, and the
    input left after the match. *)
Definition match_here (re : Regexp) (s : string) : option (list string * string) :=
  run re s [] (fun rest caps => Some (caps, rest)).

(** The text of a match of [s] that leaves [rest]. *)
Definition matched (s rest : string) : string :=
  stake (String.length s - String.length rest) s.

(** The leftmost match: [Some [m0; m1; ...]], the whole match and the
    groups. *)
Fixpoint find (re : Regexp) (s : string) : option (list string) :=
  match match_here re s with
  | Some (caps, rest) => Some (matched s rest :: caps)
  | None =>
      match s with
      | String _ s' => find re s'
      | EmptyString => None
      end
  end.

(** [re.FindStringSubmatch(s)]: [nil] when nothing matches. *)
Definition FindStringSubmatch (re : Regexp) (s : string) : list string :=
  match find re s with
  | Some m => m
  | None => []
  end.

(** [re.FindAllStringSubmatch(s, -1)]: the successive leftmost matches,
    each search starting where the match before it ended; [skip] bytes of
    the last match remain to be passed over.  Every pattern of the
    program starts with a non-empty literal, so no match is empty and the
    rule of [regexp] for empty matches is not modelled. *)
Fixpoint find_all_from (re : Regexp) (skip : nat) (s : string) : list (list string) :=
  match s with
  | EmptyString => []
  | String _ s' =>
      match skip with
      | S n => find_all_from re n s'
      | O =>
          match match_here re s with
          | Some (caps, rest) =>
              (matched s rest :: caps)
                :: find_all_from re (String.length (matched s rest) - 1) s'
          | None => find_all_from re 0 s'
          end
      end
  end.

Definition FindAllStringSubmatch (re : Regexp) (s : string) : list (list string) :=
  find_all_from re 0 s.

(** Character classes. *)
Definition word (c : ascii) : bool := is_alnum c || Ascii.eqb c "_".   (* \w *)
Definition space (c : ascii) : bool :=                                  (* \s *)
  byte_in c (String (ascii_of_nat 9) (String (ascii_of_nat 10)
            (String (ascii_of_nat 12) (String (ascii_of_nat 13) " ")))).
Definition dot (c : ascii) : bool := negb (Ascii.eqb c LF).             (* . *)
Definition except (set : string) (c : ascii) : bool := negb (byte_in c set). (* [^...] *)

End regexp.

Infix "@@" := regexp.Seq (at level 60, right associativity).

(** ** Package [net/url]

  [Parse], [Query], [Hostname] and [Port], after the sources of Go 1.17 to
  1.22.  An error is [None]; which error it is plays no part in the
  program.  Of the fields of [URL], [RawPath], [RawFragment] and
  [OmitHost] are left out: only [String] reads them. *)

Module url.

Record Userinfo : Type := {
  username : string;
  password : string;
  passwordSet : bool
}.

Record URL : Type := {
  Scheme : string;
  Opaque : string;
  User : option Userinfo;
  Host : string;
  Path : string;
  ForceQuery : bool;
  RawQuery : string;
  Fragment : string
}.

Inductive encoding : Type :=
| encodePath
| encodePathSegment
| encodeHost
| encodeZone
| encodeUserPassword
| encodeQueryComponent
| encodeFragment.

Definition is_host_mode (mode : encoding) : bool :=
  match mode with encodeHost | encodeZone => true | _ => false end.

Definition ishex (c : ascii) : bool :=
  is_digit c || byte_between "a" "f" c || byte_between "A" "F" c.

Definition unhex (c : ascii) : N :=
  if is_digit c then N_of_ascii c - N_of_ascii "0"
  else if byte_between "a" "f" c then N_of_ascii c - N_of_ascii "a" + 10
  else if byte_between "A" "F" c then N_of_ascii c - N_of_ascii "A" + 10
  else 0.

Definition shouldEscape (c : ascii) (mode : encoding) : bool :=
  if is_alnum c then false
  else if is_host_mode mode && byte_in c ("!$&'()*+,;=:[]<>" ++ String DQUOTE "")
  then false
  else if byte_in c "-_.~" then false
  else if byte_in c "$&+,/:;=?@" &&
          match mode with
          | encodePath | encodePathSegment | encodeUserPassword
          | encodeQueryComponent | encodeFragment => true
          | encodeHost | encodeZone => false
          end
  then match mode with
       | encodePath => Ascii.eqb c "?"
       | encodePathSegment => byte_in c "/;,?"
       | encodeUserPassword => byte_in c "@/?:"
       | encodeQueryComponent => true
       | _ => false
       end
  else if match mode with encodeFragment => byte_in c "!()*" | _ => false end
  then false
  else true.

(** The first loop of [unescape]: every [%] starts a well-formed escape
    that the mode allows, and a host holds no byte that needs escaping. *)
Fixpoint unescape_ok (s : string) (mode : encoding) : bool :=
  match s with
  | EmptyString => true
  | String c s1 =>
      if Ascii.eqb c "%" then
        match s1 with
        | String h1 (String h2 s3) =>
            if negb (ishex h1 && ishex h2) then false
            else if match mode with encodeHost => true | _ => false end
                    && (unhex h1 <? 8)%N
                    && negb (Ascii.eqb h1 "2" && Ascii.eqb h2 "5")
            then false
            else if match mode with encodeZone => true | _ => false end
                    && negb (Ascii.eqb h1 "2" && Ascii.eqb h2 "5")
                    && negb (unhex h1 * 16 + unhex h2 =? 32)%N
                    && shouldEscape (ascii_of_N (unhex h1 * 16 + unhex h2)) encodeHost
            then false
            else unescape_ok s3 mode
        | _ => false
        end
      else if Ascii.eqb c "+" then unescape_ok s1 mode
      else if is_host_mode mode && (N_of_ascii c <? 128)%N && shouldEscape c encodeHost
      then false
      else unescape_ok s1 mode
  end.

(** The second loop of [unescape], on a string the first loop accepted. *)
Fixpoint unescape_write (s : string) (mode : encoding) : string :=
  match s with
  | EmptyString => EmptyString
  | String c s1 =>
      if Ascii.eqb c "%" then
        match s1 with
        | String h1 (String h2 s3) =>
            String (ascii_of_N (unhex h1 * 16 + unhex h2)) (unescape_write s3 mode)
        | _ => EmptyString
        end
      else if Ascii.eqb c "+" then
        String (match mode with encodeQueryComponent => " "%char | _ => "+"%char end)
               (unescape_write s1 mode)
      else String c (unescape_write s1 mode)
  end.

Definition unescape (s : string) (mode : encoding) : option string :=
  if unescape_ok s mode then Some (unescape_write s mode) else None.

Definition QueryUnescape (s : string) : option string :=
  unescape s encodeQueryComponent.

(** [getScheme]: [i] is the index of the first byte of [rest] in [rawURL]. *)
Fixpoint getScheme_from (i : nat) (rawURL rest : string) : option (string * string) :=
  match rest with
  | EmptyString => Some (EmptyString, rawURL)
  | String c rest' =>
      if is_alpha c then getScheme_from (S i) rawURL rest'
      else if is_digit c || byte_in c "+-." then
        if (i =? 0)%nat then Some (EmptyString, rawURL)
        else getScheme_from (S i) rawURL rest'
      else if Ascii.eqb c ":" then
        if (i =? 0)%nat then None
        else Some (stake i rawURL, rest')
      else Some (EmptyString, rawURL)
  end.

Definition getScheme (rawURL : string) : option (string * string) :=
  getScheme_from 0 rawURL rawURL.

Definition stringContainsCTLByte (s : string) : bool :=
  negb (sall (fun b => negb ((N_of_ascii b <? 32)%N || (N_of_ascii b =? 127)%N)) s).

Definition validOptionalPort (port : string) : bool :=
  match port with
  | EmptyString => true
  | String c digits => Ascii.eqb c ":" && sall is_digit digits
  end.

Definition validUserinfo (s : string) : bool :=
  sall (fun r => is_alnum r || byte_in r "-._:~!$&'()*+,;=%@") s.

Definition parseHost (host : string) : option string :=
  if strings.HasPrefix host "[" then
    match strings.LastIndex host "]" with
    | None => None
    | Some i =>
        if negb (validOptionalPort (sdrop (i + 1) host)) then None
        else
          match strings.Index (stake i host) "%25" with
          | Some zone =>
              match unescape (stake zone host) encodeHost,
                    unescape (sdrop zone (stake i host)) encodeZone,
                    unescape (sdrop i host) encodeHost with
              | Some host1, Some host2, Some host3 => Some (host1 ++ host2 ++ host3)
              | _, _, _ => None
              end
          | None => unescape host encodeHost
          end
    end
  else
    match strings.LastIndex host ":" with
    | Some i =>
        if negb (validOptionalPort (sdrop i host)) then None
        else unescape host encodeHost
    | None => unescape host encodeHost
    end.

Definition parseAuthority (authority : string) : option (option Userinfo * string) :=
  let i := strings.LastIndex authority "@" in
  match match i with
        | None => parseHost authority
        | Some i => parseHost (sdrop (i + 1) authority)
        end with
  | None => None
  | Some host =>
      match i with
      | None => Some (None, host)
      | Some i =>
          let userinfo := stake i authority in
          if negb (validUserinfo userinfo) then None
          else if negb (strings.Contains userinfo ":") then
            match unescape userinfo encodeUserPassword with
            | None => None
            | Some u =>
                Some (Some {| username := u; password := EmptyString;
                              passwordSet := false |}, host)
            end
          else
            let '(name, pass, _) := strings.Cut userinfo ":" in
            match unescape name encodeUserPassword,
                  unescape pass encodeUserPassword with
            | Some u, Some p =>
                Some (Some {| username := u; password := p; passwordSet := true |}, host)
            | _, _ => None
            end
      end
  end.

Definition parse (rawURL : string) (viaRequest : bool) : option URL :=
  if stringContainsCTLByte rawURL then None
  else if is_empty rawURL && viaRequest then None
  else if String.eqb rawURL "*" then
    Some {| Scheme := EmptyString; Opaque := EmptyString; User := None;
            Host := EmptyString; Path := "*"; ForceQuery := false;
            RawQuery := EmptyString; Fragment := EmptyString |}
  else
    match getScheme rawURL with
    | None => None
    | Some (scheme0, rest0) =>
        let scheme := strings.ToLower scheme0 in
        let '(rest, forceQuery, rawQuery) :=
          if strings.HasSuffix rest0 "?" && (strings.Count rest0 "?" =? 1)%nat
          then (stake (String.length rest0 - 1) rest0, true, EmptyString)
          else let '(r, q, _) := strings.Cut rest0 "?" in (r, false, q) in
        if negb (strings.HasPrefix rest "/") && negb (is_empty scheme) then
          Some {| Scheme := scheme; Opaque := rest; User := None;
                  Host := EmptyString; Path := EmptyString;
                  ForceQuery := forceQuery; RawQuery := rawQuery;
                  Fragment := EmptyString |}
        else if negb (strings.HasPrefix rest "/") && viaRequest then None
        else if negb (strings.HasPrefix rest "/")
                && strings.Contains (fst (fst (strings.Cut rest "/"))) ":"
        then None
        else
          match
            if (negb (is_empty scheme)
                || (negb viaRequest && negb (strings.HasPrefix rest "///")))
               && strings.HasPrefix rest "//"
            then
              let authority := sdrop 2 rest in
              match strings.Index authority "/" with
              | Some i =>
                  option_map (fun uh => (uh, sdrop i authority))
                             (parseAuthority (stake i authority))
              | None =>
                  option_map (fun uh => (uh, EmptyString)) (parseAuthority authority)
              end
            else Some ((None, EmptyString), rest)
          with
          | None => None
          | Some ((user, host), rest') =>
              match unescape rest' encodePath with
              | None => None
              | Some path =>
                  Some {| Scheme := scheme; Opaque := EmptyString; User := user;
                          Host := host; Path := path; ForceQuery := forceQuery;
                          RawQuery := rawQuery; Fragment := EmptyString |}
              end
          end
    end.

(** [url.Parse(rawURL)]: [None] is the pair [(nil, err)]. *)
Definition Parse (rawURL : string) : option URL :=
  let '(u, frag, _) := strings.Cut rawURL "#" in
  match parse u false with
  | None => None
  | Some url =>
      if is_empty frag then Some url
      else
        match unescape frag encodeFragment with
        | None => None
        | Some f =>
            Some {| Scheme := Scheme url; Opaque := Opaque url; User := User url;
                    Host := Host url; Path := Path url;
                    ForceQuery := ForceQuery url; RawQuery := RawQuery url;
                    Fragment := f |}
        end
  end.

Definition splitHostPort (hostPort : string) : string * string :=
  let '(host, port) :=
    match strings.LastIndex hostPort ":" with
    | Some colon =>
        if validOptionalPort (sdrop colon hostPort)
        then (stake colon hostPort, sdrop (colon + 1) hostPort)
        else (hostPort, EmptyString)
    | None => (hostPort, EmptyString)
    end in
  if strings.HasPrefix host "[" && strings.HasSuffix host "]"
  then (stake (String.length host - 2) (sdrop 1 host), port)
  else (host, port).

Definition Hostname (u : URL) : string := fst (splitHostPort (Host u)).
Definition Port (u : URL) : string := snd (splitHostPort (Host u)).

(** [Values] is [map[string][]string]. *)
Abbreviation Values := (gmap string (list string)).

(** One turn of the loop of [parseQuery] on the piece [key] cut at [&]:
    a piece with a semicolon, an empty piece and a piece that does not
    unescape add nothing. *)
Definition parseQuery_step (m : Values) (key : string) : Values :=
  if strings.Contains key ";" then m
  else if is_empty key then m
  else
    let '(key, value, _) := strings.Cut key "=" in
    match QueryUnescape key, QueryUnescape value with
    | Some key1, Some value1 =>
        <[key1 := (default [] (m !! key1) ++ [value1])%list]> m
    | _, _ => m
    end.

(** [ParseQuery]: the loop cuts [query] at each [&] until nothing is left,
    so it visits the pieces of [Split(query, "&")] in order (the empty
    piece that [Split] adds for an empty [query] or after a final [&] is
    skipped by the loop's own test). The error is dropped by [Query]. *)
Definition ParseQuery (query : string) : Values :=
  fold_left parseQuery_step (strings.Split query "&") ∅.

Definition Query (u : URL) : Values := ParseQuery (RawQuery u).

End url.

(** ** The entries of the collection

  The objects that [parseCurlCommand] builds as [map[string]interface{}]
  have fixed keys: they are records here.  The key ["raw"] of the URL
  object ([parsedUrl.String()]) is left out; [Q] is the type of the value
  under ["query"], which differs between the two variants. *)

Record Header : Type := { key : string; value : string }.

Record Body : Type := { mode : string; raw : string }.

Record UrlObject (Q : Type) : Type := {
protocol : string;
host : list string;
port : string;
path : list string;
query : Q
}.
Arguments protocol {Q} _.
Arguments host {Q} _.
Arguments port {Q} _.
Arguments path {Q} _.
Arguments query {Q} _.

Record Request (Q : Type) : Type := {
method : string;
header : list Header;
body : Body;
url_ : UrlObject Q
}.
Arguments method {Q} _.
Arguments header {Q} _.
Arguments body {Q} _.
Arguments url_ {Q} _.

Record Item (Q : Type) : Type := {
name : string;
disableBodyPruning : bool;
request : Request Q;
response : list unit
}.
Arguments name {Q} _.
Arguments disableBodyPruning {Q} _.
Arguments request {Q} _.
Arguments response {Q} _.

(** The first two statements of [parseCurlCommand], the same in both
  variants. *)
Definition normalize (curlCommand : string) : string :=
strings.ReplaceAll
  (strings.ReplaceAll curlCommand (String "\" (String LF "")) " ")
  (String LF "") " ".

(** [reHeader], the same in both variants: [--header '(K): (V)'] with
  [K = [^:]+] and [V = [^']*]. *)
Definition reHeader : regexp.Regexp :=
regexp.Lit "--header '" @@ regexp.Cap (regexp.Plus true (regexp.except ":"))
@@ regexp.Lit ": " @@ regexp.Cap (regexp.Star true (regexp.except "'"))
@@ regexp.Lit "'".

(** [reDataRaw], the same in both variants: [--data-raw '(\{.*?\})'] *)
Definition reDataRaw : regexp.Regexp :=
regexp.Lit "--data-raw '"
@@ regexp.Cap (regexp.Lit "{" @@ regexp.Star false regexp.dot @@ regexp.Lit "}")
@@ regexp.Lit "'".

(** The loop over [reHeader.FindAllStringSubmatch(curlCommand, -1)]. *)
Definition headers_of (curlCommand : string) : list Header :=
map (fun m => {| key := nth 1 m ""; value := nth 2 m "" |})
    (regexp.FindAllStringSubmatch reHeader curlCommand).

(** The default-scheme statement, the same in both variants. *)
Definition with_scheme (extractedUrl : string) : string :=
if negb (strings.Contains extractedUrl "://")
then "http://" ++ extractedUrl
else extractedUrl.

(** ** The fixtures that [main] walks

  [main] reads the directory [keploy] of the working directory: what it
  finds there is data here.  A file of a [tests] folder is one of: not
  readable, not YAML, YAML without a string under [curl], or YAML with the
  string [curl]. *)

Inductive Fixture : Type :=
| ReadError
| YamlError
| NoCurl
| Curl (curl : string).

Record TestFile : Type := { file_name : string; fixture : Fixture }.

Inductive TestsDir : Type :=
| NoTests                          (* [os.Stat]: the folder does not exist *)
| TestsError                       (* [ioutil.ReadDir] fails *)
| Tests (testFiles : list TestFile).

Record DirEntry : Type := { entry_name : string; tests : TestsDir }.

Inductive KeployDir : Type :=
| KeployMissing
| KeployOpenError
| KeployListError
| Keploy (files : list DirEntry).

Record World : Type := {
getwd_error : bool;
keploy : KeployDir;
write_error : bool
}.

(** How a run of [main] ends, with the items of [output.json] when it is
  written. *)
Inductive Outcome (A : Type) : Type :=
| Aborted          (* a return before anything is written *)
| WriteFailed      (* [os.WriteFile] fails *)
| Written (items : A)
| Panicked.
Arguments Aborted {A}.
Arguments WriteFailed {A}.
Arguments Written {A} _.
Arguments Panicked {A}.

(** [filepath.Ext]: the suffix of the last element of [path] from its last
  dot, empty when that element has no dot. *)
Fixpoint Ext (path : string) : string :=
match path with
| EmptyString => EmptyString
| String c rest =>
    match Ext rest with
    | EmptyString =>
        if strings.Contains rest "/" then EmptyString
        else if Ascii.eqb c "." then path
        else EmptyString
    | ext => ext
    end
end.

(** The inner loop of [main]: the commands of the files of one [tests]
  folder that reach [parseCurlCommand], in order. *)
Definition curls_of_tests (testFiles : list TestFile) : list string :=
flat_map
  (fun testFile =>
     if String.eqb (Ext (file_name testFile)) ".yaml"
     then match fixture testFile with
          | Curl curl => [curl]
          | ReadError | YamlError | NoCurl => []
          end
     else [])
  testFiles.

(** The outer loop of [main]. *)
Definition curls_of_files (files : list DirEntry) : list string :=
flat_map
  (fun v =>
     if strings.Contains (entry_name v) "test-set"
     then match tests v with
          | Tests testFiles => curls_of_tests testFiles
          | NoTests | TestsError => []
          end
     else [])
  files.

(** ** The normalizer, as the specification words it *)

(** A backslash immediately followed by a newline becomes one space. *)
Fixpoint join_continuations (s : string) : string :=
match s with
| EmptyString => EmptyString
| String c rest =>
    match rest with
    | String d rest' =>
        if Ascii.eqb c "\" && Ascii.eqb d LF
        then String " " (join_continuations rest')
        else String c (join_continuations rest)
    | EmptyString => String c EmptyString
    end
end.

(** Every newline becomes one space. *)
Fixpoint newlines_to_spaces (s : string) : string :=
match s with
| EmptyString => EmptyString
| String c rest =>
    String (if Ascii.eqb c LF then " "%char else c) (newlines_to_spaces rest)
end.

(** ** [src/main.go] *)

Module Main.

(** [reMethodAndUrl]: [--request (\w+) '(U)'] with [U = [^']*]. *)
Definition reMethodAndUrl : regexp.Regexp :=
  regexp.Lit "--request " @@ regexp.Cap (regexp.Plus true regexp.word)
  @@ regexp.Lit " '" @@ regexp.Cap (regexp.Star true (regexp.except "'"))
  @@ regexp.Lit "'".

Definition method_and_url (curlCommand : string) : string * string :=
  let matches := regexp.FindStringSubmatch reMethodAndUrl curlCommand in
  if (2 <? length matches)%nat
  then (nth 1 matches "", nth 2 matches "")
  else ("GET", "").

Record QueryParam : Type := { qkey : string; qvalue : string; disabled : bool }.

(** The two nested loops over [parsedUrl.Query()]: Go leaves the order in
    which [range] visits the keys of a map unspecified, so the order of a
    run is the list [keys]. *)
Definition query_entries (values : url.Values) (keys : list string) : list QueryParam :=
  flat_map
    (fun k => map (fun v => {| qkey := k; qvalue := v; disabled := false |})
                  (default [] (values !! k)))
    keys.

(** What a run may take as the order of the keys of [values]. *)
Definition range_order (values : url.Values) (keys : list string) : Prop :=
  Permutation keys (map fst (map_to_list values)).

Definition body_of (curlCommand : string) : Body :=
  let dataRawMatch := regexp.FindStringSubmatch reDataRaw curlCommand in
  if (1 <? length dataRawMatch)%nat
  then {| mode := "raw"; raw := nth 1 dataRawMatch "" |}
  else {| mode := "none"; raw := "" |}.

(** [parseCurlCommand], for a run whose [range] visits the keys of a map
    [m] in the order [range m].  The error of [url.Parse] is dropped and
    [parsedUrl] is [nil] when there is one: [parsedUrl.Query()] then
    panics, which is [None].  What the function prints is not modelled. *)
Definition parseCurlCommand (range : url.Values -> list string)
           (curlCommand : string) : option (Item (list QueryParam)) :=
  let curlCommand := normalize curlCommand in
  let '(method, extractedUrl) := method_and_url curlCommand in
  let extractedUrl := with_scheme extractedUrl in
  match url.Parse extractedUrl with
  | None => None
  | Some parsedUrl =>
      let query := query_entries (url.Query parsedUrl) (range (url.Query parsedUrl)) in
      let headers := headers_of curlCommand in
      Some {| name := "Generated from Curl";
              disableBodyPruning := true;
              request :=
                {| method := method;
                   header := headers;
                   body := body_of curlCommand;
                   url_ :=
                     {| protocol := url.Scheme parsedUrl;
                        host := [url.Hostname parsedUrl];
                        port := url.Port parsedUrl;
                        path := [strings.TrimLeft (url.Path parsedUrl) "/"];
                        query := query |} |};
              response := [] |}
  end.

(** A run of [parseCurlCommand]: some admissible choice of orders. *)
Definition admissible (range : url.Values -> list string) : Prop :=
  forall m, range_order m (range m).

(** Two orders a run may take. *)
Definition range_up (m : url.Values) : list string := map fst (map_to_list m).
Definition range_down (m : url.Values) : list string := rev (map fst (map_to_list m)).

(** [collection.Items] after the loops of [main]: every command appends
    what [parseCurlCommand] returns; [None] when one of the calls
    panics. *)
Fixpoint collect (range : url.Values -> list string) (curls : list string)
  : option (list (Item (list QueryParam))) :=
  match curls with
  | [] => Some []
  | curl :: curls' =>
      match parseCurlCommand range curl with
      | None => None
      | Some requestJSON =>
          option_map (cons requestJSON) (collect range curls')
      end
  end.

Definition main (range : url.Values -> list string) (w : World)
  : Outcome (list (Item (list QueryParam))) :=
  if getwd_error w then Aborted
  else match keploy w with
       | Keploy files =>
           match collect range (curls_of_files files) with
           | None => Panicked
           | Some items => if write_error w then WriteFailed else Written items
           end
       | KeployMissing | KeployOpenError | KeployListError => Aborted
       end.

End Main.

(** ** [src/unnamed/part_000] *)

Module Part000.

(** [--request\s+(\w+)\s+--url\s+([^ ]+)] *)
Definition reMethodAndUrl : regexp.Regexp :=
  regexp.Lit "--request" @@ regexp.Plus true regexp.space
  @@ regexp.Cap (regexp.Plus true regexp.word) @@ regexp.Plus true regexp.space
  @@ regexp.Lit "--url" @@ regexp.Plus true regexp.space
  @@ regexp.Cap (regexp.Plus true (regexp.except " ")).

(** [--data '(\{.*?\})'] *)
Definition reData : regexp.Regexp :=
  regexp.Lit "--data '"
  @@ regexp.Cap (regexp.Lit "{" @@ regexp.Star false regexp.dot @@ regexp.Lit "}")
  @@ regexp.Lit "'".

Definition method_and_url (curlCommand : string) : string * string :=
  let matches := regexp.FindStringSubmatch reMethodAndUrl curlCommand in
  if (2 <? length matches)%nat
  then (nth 1 matches "", nth 2 matches "")
  else ("GET", "").

Definition rawData_of (curlCommand : string) : string :=
  let dataMatch := regexp.FindStringSubmatch reData curlCommand in
  let dataMatch :=
    if (length dataMatch =? 0)%nat
    then regexp.FindStringSubmatch reDataRaw curlCommand
    else dataMatch in
  if (1 <? length dataMatch)%nat then nth 1 dataMatch "" else "".

Definition name_of (parsedUrl : url.URL) : string :=
  let pathSegments := strings.Split (strings.Trim (url.Path parsedUrl) "/") "/" in
  if (0 <? length pathSegments)%nat
  then nth (length pathSegments - 1) pathSegments ""
  else "Generated from Curl".

(** [parseCurlCommand]: [None] is the [nil] map it returns when the URL
    does not parse or has no host name. *)
Definition parseCurlCommand (curlCommand : string) : option (Item url.Values) :=
  let curlCommand := normalize curlCommand in
  let '(method, extractedUrl) := method_and_url curlCommand in
  let extractedUrl := with_scheme extractedUrl in
  match url.Parse extractedUrl with
  | None => None
  | Some parsedUrl =>
      if is_empty (url.Hostname parsedUrl) then None
      else
        let headers := headers_of curlCommand in
        Some {| name := name_of parsedUrl;
                disableBodyPruning := true;
                request :=
                  {| method := method;
                     header := headers;
                     body := {| mode := "raw"; raw := rawData_of curlCommand |};
                     url_ :=
                       {| protocol := url.Scheme parsedUrl;
                          host := [url.Hostname parsedUrl];
                          port := url.Port parsedUrl;
                          path := [strings.TrimLeft (url.Path parsedUrl) "/"];
                          query := url.Query parsedUrl |} |};
                response := [] |}
  end.

(** [collection.Items] after the loops of [main]: every command appends
    what [parseCurlCommand] returns, the [nil] map ([None], written as
    [null]) included. *)
Definition collect (curls : list string) : list (option (Item url.Values)) :=
  map parseCurlCommand curls.

Definition main (w : World) : Outcome (list (option (Item url.Values))) :=
  if getwd_error w then Aborted
  else match keploy w with
       | Keploy files =>
           if write_error w then WriteFailed
           else Written (collect (curls_of_files files))
       | KeployMissing | KeployOpenError | KeployListError => Aborted
       end.

End Part000.

(** ** Vocabulary of the statements *)


(** No proper non-empty suffix of [p] is a prefix of [p]: two occurrences of
  [p] in a text cannot overlap. *)
Definition unbordered (p : string) : bool :=
forallb (fun d => negb (strings.HasPrefix p (sdrop d p)))
        (seq 1 (String.length p - 1)).



(** * Properties *)

#[local] Arguments String.append !s1 s2 : simpl nomatch.
#[local] Arguments strings.HasPrefix : simpl never.

(** ** Strings *)

Section StringFacts.

Lemma sapp_assoc (a b c : string) : (a ++ b) ++ c = a ++ b ++ c.
Proof. induction a as [|x a IH]; simpl; [reflexivity | now rewrite IH]. Qed.

Lemma sapp_nil_r (a : string) : a ++ "" = a.
Proof. induction a as [|x a IH]; simpl; [reflexivity | now rewrite IH]. Qed.

Lemma slength_app (a b : string) :
  String.length (a ++ b) = String.length a + String.length b.
Proof. induction a as [|x a IH]; simpl; [reflexivity | now rewrite IH]. Qed.

Lemma sdrop_app (a b : string) : sdrop (String.length a) (a ++ b) = b.
Proof. induction a as [|x a IH]; simpl; [now destruct b | exact IH]. Qed.

Lemma stake_app (a b : string) : stake (String.length a) (a ++ b) = a.
Proof. induction a as [|x a IH]; simpl; [now destruct b | now rewrite IH]. Qed.

Lemma sall_app (p : ascii -> bool) (a b : string) :
  sall p (a ++ b) = sall p a && sall p b.
Proof.
  induction a as [|x a IH]; simpl; [reflexivity|].
  rewrite IH. now rewrite andb_assoc.
Qed.

Lemma HasPrefix_nil (s : string) : strings.HasPrefix s "" = true.
Proof. now destruct s. Qed.

Lemma HasPrefix_cons (c d : ascii) (s p : string) :
  strings.HasPrefix (String c s) (String d p)
  = Ascii.eqb c d && strings.HasPrefix s p.
Proof.
  unfold strings.HasPrefix. simpl.
  destruct (ascii_dec d c) as [->|Hne].
  - now rewrite Ascii.eqb_refl.
  - destruct (Ascii.eqb_spec c d) as [->|_]; [now contradiction Hne | reflexivity].
Qed.

Lemma HasPrefix_app (p s : string) : strings.HasPrefix (p ++ s) p = true.
Proof.
  induction p as [|x p IH]; simpl; [apply HasPrefix_nil|].
  now rewrite HasPrefix_cons, Ascii.eqb_refl.
Qed.

Lemma HasPrefix_split (s p : string) :
  strings.HasPrefix s p = true -> s = p ++ sdrop (String.length p) s.
Proof.
  revert s; induction p as [|x p IH]; intros [|c s]; try reflexivity;
    try discriminate.
  rewrite HasPrefix_cons. intros [Hc Hp]%andb_prop.
  apply Ascii.eqb_eq in Hc as ->. simpl. now rewrite <- IH.
Qed.

(** A pattern found at the start of [u ++ s] starts in [u] and ends in
    [u], or runs over into [s]. *)
Lemma HasPrefix_app_cases (u s p : string) :
  strings.HasPrefix (u ++ s) p = true ->
  strings.HasPrefix u p = true
  \/ exists p2, p = u ++ p2 /\ strings.HasPrefix s p2 = true.
Proof.
  revert p; induction u as [|c u IH]; intros p H.
  - right. now exists p.
  - destruct p as [|d p]; [left; reflexivity|].
    simpl in H. rewrite HasPrefix_cons in H |- *.
    apply andb_prop in H as [Hc Hp]. rewrite Hc. simpl.
    destruct (IH _ Hp) as [Hu | [p2 [-> Hp2]]]; [now left|].
    right. exists p2. apply Ascii.eqb_eq in Hc as ->. now split.
Qed.

Lemma HasPrefix_shorter (s a b : string) :
  strings.HasPrefix s a = true -> strings.HasPrefix s b = true ->
  String.length b <= String.length a -> strings.HasPrefix a b = true.
Proof.
  revert s a; induction b as [|d b IH]; intros s a Ha Hb Hlen.
  - apply HasPrefix_nil.
  - destruct a as [|c a]; [simpl in Hlen; lia|].
    destruct s as [|x s]; [discriminate|].
    rewrite HasPrefix_cons in *.
    apply andb_prop in Ha as [Hc Ha]. apply andb_prop in Hb as [Hd Hb].
    apply Ascii.eqb_eq in Hc as <-. rewrite Hd. simpl.
    apply (IH s); auto. simpl in Hlen. lia.
Qed.

Lemma Contains_HasPrefix (s p : string) :
  strings.HasPrefix s p = true -> strings.Contains s p = true.
Proof. destruct s; simpl; intros ->; reflexivity. Qed.

Lemma Contains_cons_false (c : ascii) (s p : string) :
  strings.Contains (String c s) p = false ->
  strings.HasPrefix (String c s) p = false /\ strings.Contains s p = false.
Proof. simpl. now intros [? ?]%orb_false_elim. Qed.

Lemma Contains_app_false (a b p : string) :
  strings.Contains (a ++ b) p = false -> strings.Contains b p = false.
Proof.
  induction a as [|c a IH]; simpl; [trivial|].
  intros [_ H]%orb_false_elim. auto.
Qed.

End StringFacts.

(** ** The normalizer *)

Section Normalizer.

Let BSLF : string := String "\" (String LF "").

Lemma replace_continuations_aux (n : nat) :
  forall s, String.length s <= n ->
            strings.replace_from BSLF " " 0 s = join_continuations s.
Proof.
  induction n as [|n IH]; intros s Hn.
  - destruct s; [reflexivity | simpl in Hn; lia].
  - destruct s as [|c [|d r]]; try reflexivity.
    + cbn [strings.replace_from join_continuations]. unfold BSLF.
      rewrite HasPrefix_cons.
      change (strings.HasPrefix "" (String LF "")) with false.
      now rewrite andb_false_r.
    + simpl in Hn.
      change (strings.replace_from BSLF " " 0 (String c (String d r)))
        with (if strings.HasPrefix (String c (String d r)) BSLF
              then " " ++ strings.replace_from BSLF " " 1 (String d r)
              else String c (strings.replace_from BSLF " " 0 (String d r))).
      unfold BSLF at 1. rewrite !HasPrefix_cons, HasPrefix_nil, andb_true_r.
      cbn [join_continuations].
      destruct (Ascii.eqb c "\" && Ascii.eqb d LF).
      * cbn [strings.replace_from]. simpl. f_equal. apply IH. lia.
      * f_equal. apply IH. simpl. lia.
Qed.

Lemma replace_continuations (s : string) :
  strings.ReplaceAll s BSLF " " = join_continuations s.
Proof. apply (replace_continuations_aux (String.length s)). lia. Qed.

Lemma replace_newlines (s : string) :
  strings.ReplaceAll s (String LF "") " " = newlines_to_spaces s.
Proof.
  unfold strings.ReplaceAll.
  induction s as [|c s IH]; [reflexivity|].
  cbn [strings.replace_from newlines_to_spaces].
  rewrite HasPrefix_cons, HasPrefix_nil, andb_true_r.
  destruct (Ascii.eqb c LF); simpl; now rewrite IH.
Qed.

Lemma newlines_to_spaces_no_newline (s : string) :
  sall (fun c => negb (Ascii.eqb c LF)) (newlines_to_spaces s) = true.
Proof.
  induction s as [|c s IH]; [reflexivity|]. simpl. rewrite IH, andb_true_r.
  destruct (Ascii.eqb c LF) eqn:E; [reflexivity | now rewrite E].
Qed.

(** C9: the normalizer replaces every backslash immediately followed by a
    newline with one space, then every remaining newline with one space,
    and changes no other character; it returns a result for every input,
    and that result holds no newline. *)
Theorem normalize_spec (curlCommand : string) :
  normalize curlCommand = newlines_to_spaces (join_continuations curlCommand)
  /\ sall (fun c => negb (Ascii.eqb c LF)) (normalize curlCommand) = true.
Proof.
  assert (H : normalize curlCommand
              = newlines_to_spaces (join_continuations curlCommand)).
  { unfold normalize. fold BSLF.
    now rewrite replace_continuations, replace_newlines. }
  split; [exact H|]. rewrite H. apply newlines_to_spaces_no_newline.
Qed.

End Normalizer.

(** ** The matcher *)

Section RegexpFacts.
Import regexp.
Context {A : Type}.
Implicit Types (k : string -> option A) (K : Cont A).

Lemma stake_matched (a b : string) :
  stake (String.length (a ++ b) - String.length b) (a ++ b) = a.
Proof.
  rewrite slength_app.
  replace (String.length a + String.length b - String.length b)
    with (String.length a) by lia.
  apply stake_app.
Qed.



(** A lazy repetition stops at the first place where what follows
    matches. *)
Lemma star_lazy_some cls a b k r :
  sall cls a = true ->
  (forall a1 a2, a = a1 ++ a2 -> a2 <> "" -> k (a2 ++ b) = None) ->
  k b = Some r ->
  star_lazy cls (a ++ b) k = Some r.
Proof.
  intros Ha Hk Hb. induction a as [|c a IH].
  - simpl. destruct b; simpl; now rewrite Hb.
  - simpl in Ha. apply andb_prop in Ha as [Hc Ha].
    cbn [String.append star_lazy].
    pose proof (Hk "" (String c a) eq_refl ltac:(discriminate)) as H0.
    cbn [String.append] in H0. rewrite H0.
    rewrite Hc. apply IH; [exact Ha|].
    intros a1 a2 -> Hne. now apply (Hk (String c a1) a2).
Qed.

Lemma run_lit text x caps K :
  run (Lit text) (text ++ x) caps K = K x caps.
Proof. cbn [run]. now rewrite HasPrefix_app, sdrop_app. Qed.

Lemma run_lit_none text s caps K :
  strings.HasPrefix s text = false -> run (Lit text) s caps K = None.
Proof. cbn [run]. now intros ->. Qed.




(** The group [(\{.*?\})] takes the braces around the shortest text that
    is followed by what [K] matches. *)
Lemma run_cap_braces a b caps K r :
  sall dot a = true ->
  (forall a1 a2 m,
      a = a1 ++ a2 -> a2 <> "" ->
      strings.HasPrefix (a2 ++ "}" ++ b) "}" = true ->
      K (sdrop 1 (a2 ++ "}" ++ b)) (List.app caps [m]) = None) ->
  K b (List.app caps ["{" ++ a ++ "}"]) = Some r ->
  run (Cap (Lit "{" @@ Star false dot @@ Lit "}")) ("{" ++ a ++ "}" ++ b) caps K
  = Some r.
Proof.
  intros Ha Hk HK. cbn [run].
  rewrite HasPrefix_app, sdrop_app. cbn [star].
  apply star_lazy_some; auto.
  - intros a1 a2 E Hne.
    destruct (strings.HasPrefix (a2 ++ "}" ++ b) "}") eqn:Hp; [|reflexivity].
    now apply Hk with (a1 := a1).
  - rewrite HasPrefix_app, sdrop_app.
    replace ("{" ++ a ++ "}" ++ b) with (("{" ++ a ++ "}") ++ b)
      by (now rewrite !sapp_assoc).
    now rewrite stake_matched.
Qed.

End RegexpFacts.

(** ** Searching for a pattern that starts with a literal *)

Section FindFacts.
Import regexp.
Variables (lit : string) (r : Regexp).
Let re : Regexp := Lit lit @@ r.

Lemma match_here_lit_none s :
  strings.HasPrefix s lit = false -> match_here re s = None.
Proof. intros H. unfold match_here, re. cbn [run]. now rewrite H. Qed.

Lemma find_absent s :
  strings.Contains s lit = false -> find re s = None.
Proof.
  induction s as [|c s IH]; intros H.
  - simpl in H. apply orb_false_elim in H as [H _].
    cbn [find]. now rewrite match_here_lit_none.
  - apply Contains_cons_false in H as [H1 H2].
    cbn [find]. rewrite match_here_lit_none by exact H1. auto.
Qed.


Lemma unbordered_spec d :
  unbordered lit = true -> 0 < d < String.length lit ->
  strings.HasPrefix lit (sdrop d lit) = false.
Proof.
  unfold unbordered. rewrite forallb_forall. intros H Hd.
  apply negb_true_iff, H, in_seq. lia.
Qed.

(** No occurrence of an unbordered [lit] starts inside [u] when [u] holds
    none and the next one starts right after [u]. *)
Lemma no_overlap u s :
  unbordered lit = true -> is_empty u = false ->
  strings.Contains u lit = false -> strings.HasPrefix s lit = true ->
  strings.HasPrefix (u ++ s) lit = false.
Proof.
  intros Hun Hu Hc Hs.
  destruct (strings.HasPrefix (u ++ s) lit) eqn:E; [exfalso|reflexivity].
  apply HasPrefix_app_cases in E as [E | [p2 [Ep Hp2]]].
  - apply Contains_HasPrefix in E. congruence.
  - assert (Hlen : String.length lit = String.length u + String.length p2).
    { rewrite Ep. apply slength_app. }
    assert (Hp : strings.HasPrefix lit p2 = true).
    { apply (HasPrefix_shorter s); auto. lia. }
    assert (Ed : sdrop (String.length u) lit = p2).
    { rewrite Ep. apply sdrop_app. }
    destruct p2 as [|d p2].
    + rewrite sapp_nil_r in Ep.
      rewrite Contains_HasPrefix in Hc; [discriminate|].
      rewrite Ep. rewrite <- (sapp_nil_r u) at 1. apply HasPrefix_app.
    + rewrite <- Ed, unbordered_spec in Hp; [discriminate | exact Hun |].
      rewrite Hlen. simpl. destruct u; [discriminate | simpl; lia].
Qed.

Lemma find_skip pre s :
  unbordered lit = true -> strings.Contains pre lit = false ->
  strings.HasPrefix s lit = true ->
  find re (pre ++ s) = find re s.
Proof.
  intros Hun Hc Hs. induction pre as [|c pre IH]; [reflexivity|].
  cbn [String.append find].
  change (String c (pre ++ s)) with (String c pre ++ s).
  rewrite match_here_lit_none by (now apply no_overlap).
  apply Contains_cons_false in Hc as [_ Hc]. auto.
Qed.


End FindFacts.

Section FindAllFacts.
Import regexp.
Variable re : Regexp.



Lemma find_match m caps rest :
  match_here re (m ++ rest) = Some (caps, rest) ->
  find re (m ++ rest) = Some (m :: caps).
Proof.
  intros Hm. destruct (m ++ rest) eqn:E; cbn [find]; rewrite Hm;
    unfold matched; now rewrite <- E, stake_matched.
Qed.

End FindAllFacts.

Section MoreFacts.
Import regexp.
Context {A : Type}.
Implicit Types (K : Cont A).

Lemma run_seq r1 r2 s caps K :
  run (r1 @@ r2) s caps K = run r1 s caps (fun s' caps' => run r2 s' caps' K).
Proof. reflexivity. Qed.



Lemma Contains_suffix a1 a2 p :
  strings.HasPrefix a2 p = true -> strings.Contains (a1 ++ a2) p = true.
Proof.
  intros H. destruct (strings.Contains (a1 ++ a2) p) eqn:E; [reflexivity|].
  apply Contains_app_false in E. now rewrite Contains_HasPrefix in E.
Qed.

Lemma Contains_longer s p q :
  strings.Contains s p = false -> strings.Contains s (p ++ q) = false.
Proof.
  assert (Hp : forall t, strings.HasPrefix t p = false ->
                         strings.HasPrefix t (p ++ q) = false).
  { intros t Ht. destruct (strings.HasPrefix t (p ++ q)) eqn:E; [|reflexivity].
    apply HasPrefix_split in E. rewrite sapp_assoc in E.
    rewrite E, HasPrefix_app in Ht. discriminate. }
  induction s as [|c s IH]; cbn [strings.Contains];
    intros [H1 H2]%orb_false_elim; rewrite (Hp _ H1); [reflexivity|].
  now rewrite IH.
Qed.



End MoreFacts.

(** ** Headers *)

Section Headers.
Import regexp.










End Headers.

(** ** Method and URL *)

Section MethodAndUrl.
Import regexp.










End MethodAndUrl.

(** ** Body *)

Section BodyFacts.
Import regexp.

(** The shape of [reData] and [reDataRaw]. *)
Lemma braces_match lit a rest :
  sall dot a = true -> strings.Contains a "}'" = false ->
  match_here
    (Lit lit @@ Cap (Lit "{" @@ Star false dot @@ Lit "}") @@ Lit "'")
    (lit ++ "{" ++ a ++ "}" ++ "'" ++ rest)
  = Some (["{" ++ a ++ "}"], rest).
Proof.
  intros Ha Hc. unfold match_here.
  rewrite run_seq, run_lit, run_seq.
  apply run_cap_braces; auto; [|now rewrite run_lit].
  intros a1 a2 m -> Hne Hp. apply run_lit_none.
  destruct a2 as [|c a2]; [contradiction|].
  cbn [String.append] in Hp. rewrite HasPrefix_cons, HasPrefix_nil in Hp.
  apply andb_prop in Hp as [Hp _]. apply Ascii.eqb_eq in Hp as ->.
  cbn [String.append sdrop].
  destruct a2 as [|d a2]; [reflexivity|].
  cbn [String.append]. rewrite HasPrefix_cons, HasPrefix_nil, andb_true_r.
  destruct (Ascii.eqb_spec d "'") as [->|]; [|reflexivity].
  rewrite (Contains_suffix a1 (String "}" (String "'" a2)) "}'") in Hc;
    [discriminate|].
  change (String "}" (String "'" a2)) with ("}'" ++ a2). apply HasPrefix_app.
Qed.

Lemma data_found lit pre a rest :
  unbordered lit = true -> strings.Contains pre lit = false ->
  sall dot a = true -> strings.Contains a "}'" = false ->
  FindStringSubmatch
    (Lit lit @@ Cap (Lit "{" @@ Star false dot @@ Lit "}") @@ Lit "'")
    (pre ++ lit ++ "{" ++ a ++ "}" ++ "'" ++ rest)
  = [lit ++ "{" ++ a ++ "}" ++ "'"; "{" ++ a ++ "}"].
Proof.
  intros Hun Hpre Ha Hc. unfold FindStringSubmatch.
  rewrite find_skip; auto; [|apply HasPrefix_app].
  replace (lit ++ "{" ++ a ++ "}" ++ "'" ++ rest)
    with ((lit ++ "{" ++ a ++ "}" ++ "'") ++ rest)
    by (now rewrite !sapp_assoc).
  rewrite find_match with (caps := ["{" ++ a ++ "}"]); [reflexivity|].
  rewrite !sapp_assoc. now apply braces_match.
Qed.

Lemma data_absent lit r s :
  strings.Contains s lit = false -> FindStringSubmatch (Lit lit @@ r) s = [].
Proof. intros H. unfold FindStringSubmatch. now rewrite find_absent. Qed.

(** C4, as stated, fails: in [src/unnamed/part_000] a command with
    neither pattern has the body mode [raw], not [none]. *)
Lemma body_mode_counterexample :
  option_map (fun it => body (request it))
             (Part000.parseCurlCommand "curl --request GET --url http://a.com/users")
  = Some {| mode := "raw"; raw := "" |}.
Proof. vm_compute. reflexivity. Qed.

(** What the two variants take as the body of a text, by the first
    occurrence of the literal that starts their patterns. *)
Lemma body_of_first_literal :
  (forall cmd,
      strings.Contains cmd "--data-raw '" = false ->
      Main.body_of cmd = {| mode := "none"; raw := "" |})
  /\ (forall pre a rest,
         strings.Contains pre "--data-raw '" = false ->
         sall dot a = true -> strings.Contains a "}'" = false ->
         Main.body_of (pre ++ "--data-raw '" ++ "{" ++ a ++ "}" ++ "'" ++ rest)
         = {| mode := "raw"; raw := "{" ++ a ++ "}" |})
  /\ (forall cmd,
         strings.Contains cmd "--data '" = false ->
         strings.Contains cmd "--data-raw '" = false ->
         Part000.rawData_of cmd = "")
  /\ (forall pre a rest,
         strings.Contains pre "--data '" = false ->
         sall dot a = true -> strings.Contains a "}'" = false ->
         Part000.rawData_of (pre ++ "--data '" ++ "{" ++ a ++ "}" ++ "'" ++ rest)
         = "{" ++ a ++ "}")
  /\ (forall pre a rest,
         strings.Contains
           (pre ++ "--data-raw '" ++ "{" ++ a ++ "}" ++ "'" ++ rest) "--data '"
         = false ->
         strings.Contains pre "--data-raw '" = false ->
         sall dot a = true -> strings.Contains a "}'" = false ->
         Part000.rawData_of (pre ++ "--data-raw '" ++ "{" ++ a ++ "}" ++ "'" ++ rest)
         = "{" ++ a ++ "}")
  /\ (forall cmd it,
         Part000.parseCurlCommand cmd = Some it ->
         mode (body (request it)) = "raw").
Proof.
  repeat split.
  - intros cmd H. unfold Main.body_of, reDataRaw. now rewrite data_absent.
  - intros pre a rest Hpre Ha Hc. unfold Main.body_of, reDataRaw.
    now rewrite data_found.
  - intros cmd H1 H2. unfold Part000.rawData_of, Part000.reData, reDataRaw.
    now rewrite !data_absent.
  - intros pre a rest Hpre Ha Hc. unfold Part000.rawData_of, Part000.reData.
    now rewrite data_found.
  - intros pre a rest Hno Hpre Ha Hc.
    unfold Part000.rawData_of, Part000.reData, reDataRaw.
    rewrite (data_absent "--data '") by exact Hno.
    cbn [length Nat.eqb]. now rewrite data_found.
  - intros cmd it. unfold Part000.parseCurlCommand.
    destruct (Part000.method_and_url _) as [m u].
    destruct (url.Parse _) as [p|]; [|discriminate].
    destruct (is_empty _); [discriminate|].
    now intros [= <-].
Qed.

End BodyFacts.

(** ** The URL object *)

Section UrlObject.

Lemma TrimLeft_slashes (s : string) :
  exists slashes,
    s = slashes ++ strings.TrimLeft s "/"
    /\ sall (fun c => Ascii.eqb c "/") slashes = true
    /\ strings.HasPrefix (strings.TrimLeft s "/") "/" = false.
Proof.
  induction s as [|c s [sl [E [Hs Hp]]]].
  - exists "". now repeat split.
  - cbn [strings.TrimLeft byte_in]. rewrite orb_false_r.
    destruct (Ascii.eqb c "/") eqn:Ec.
    + exists (String c sl). cbn [String.append sall].
      rewrite <- E, Ec, Hs. now repeat split.
    + exists "". repeat split.
      now rewrite HasPrefix_cons, Ec.
Qed.

(** C5, as stated, fails: a path of two segments gives one entry, not one
    entry per segment. *)
Lemma path_segments_counterexample :
  option_map (fun it => path (url_ (request it)))
             (Part000.parseCurlCommand "curl --request GET --url http://a.com/a/b")
  = Some ["a/b"].
Proof. vm_compute. reflexivity. Qed.

(** C5, amended: in both variants the [path] of the record has exactly one
    entry, the path of the resolved URL without its leading slashes (it is
    not split at the slashes inside). *)
Theorem path_is_one_entry :
  (forall cmd it,
      Part000.parseCurlCommand cmd = Some it ->
      exists parsedUrl slashes p,
        url.Parse (with_scheme (snd (Part000.method_and_url (normalize cmd))))
        = Some parsedUrl
        /\ url.Path parsedUrl = slashes ++ p
        /\ sall (fun c => Ascii.eqb c "/") slashes = true
        /\ strings.HasPrefix p "/" = false
        /\ path (url_ (request it)) = [p])
  /\ (forall range cmd it,
         Main.parseCurlCommand range cmd = Some it ->
         exists parsedUrl slashes p,
           url.Parse (with_scheme (snd (Main.method_and_url (normalize cmd))))
           = Some parsedUrl
           /\ url.Path parsedUrl = slashes ++ p
           /\ sall (fun c => Ascii.eqb c "/") slashes = true
           /\ strings.HasPrefix p "/" = false
           /\ path (url_ (request it)) = [p]).
Proof.
  split.
  - intros cmd it. unfold Part000.parseCurlCommand.
    destruct (Part000.method_and_url _) as [m u]. cbn [snd].
    destruct (url.Parse _) as [parsedUrl|]; [|discriminate].
    destruct (is_empty _); [discriminate|]. intros [= <-].
    destruct (TrimLeft_slashes (url.Path parsedUrl)) as [sl [E [Hs Hp]]].
    exists parsedUrl, sl, (strings.TrimLeft (url.Path parsedUrl) "/").
    now repeat split.
  - intros range cmd it. unfold Main.parseCurlCommand.
    destruct (Main.method_and_url _) as [m u]. cbn [snd].
    destruct (url.Parse _) as [parsedUrl|]; [|discriminate]. intros [= <-].
    destruct (TrimLeft_slashes (url.Path parsedUrl)) as [sl [E [Hs Hp]]].
    exists parsedUrl, sl, (strings.TrimLeft (url.Path parsedUrl) "/").
    now repeat split.
Qed.

Lemma path_is_one_entry_witness :
  exists it,
    Part000.parseCurlCommand "--request GET --url api.example.com/users" = Some it
    /\ path (url_ (request it)) = ["users"]
    /\ exists parsedUrl slashes p,
        url.Parse (with_scheme (snd (Part000.method_and_url
                     (normalize "--request GET --url api.example.com/users"))))
        = Some parsedUrl
        /\ url.Path parsedUrl = slashes ++ p
        /\ sall (fun c => Ascii.eqb c "/") slashes = true
        /\ strings.HasPrefix p "/" = false
        /\ path (url_ (request it)) = [p].
Proof.
  eexists. split; [vm_compute; reflexivity|]. split; [reflexivity|].
  apply (proj1 path_is_one_entry). vm_compute. reflexivity.
Defined.

(** C7, at the failing input: the URL [example.com/r?next=http://o.com]
    has no scheme, but it holds [://], so [http://] is not put in front of
    it; [src/main.go] builds a record with an empty protocol and an empty
    host, and [src/unnamed/part_000] returns [nil]. *)
Theorem scheme_not_defaulted :
  with_scheme "example.com/r?next=http://o.com" = "example.com/r?next=http://o.com"
  /\ option_map (fun it => (protocol (url_ (request it)), host (url_ (request it))))
                (Main.parseCurlCommand
                   Main.range_up "curl --request GET 'example.com/r?next=http://o.com'")
     = Some ("", [""])
  /\ Part000.parseCurlCommand
       "curl --request GET --url example.com/r?next=http://o.com"
     = None.
Proof. repeat split; vm_compute; reflexivity. Qed.

(** C2, at the failing input: for a command without URL,
    [src/unnamed/part_000] returns [nil] and [main] appends it to the
    items all the same, and [src/main.go] builds and appends a record
    whose host is empty. *)
Theorem hostless_item_appended :
  Part000.collect ["curl --header 'X: Y'"] = [None]
  /\ option_map (map (fun it => host (url_ (request it))))
                (Main.collect Main.range_up ["curl --header 'X: Y'"])
     = Some [[""]].
Proof. split; vm_compute; reflexivity. Qed.

(** C3, at the failing input: for a URL with an empty path
    [src/unnamed/part_000] gives the empty name, not the placeholder:
    [strings.Split] never returns an empty slice. *)
Theorem empty_path_name :
  option_map name (Part000.parseCurlCommand "curl --request GET --url http://a.com")
  = Some "".
Proof. vm_compute. reflexivity. Qed.

Lemma range_up_admissible : Main.admissible Main.range_up.
Proof. intros m. apply Permutation_refl. Qed.

Lemma range_down_admissible : Main.admissible Main.range_down.
Proof. intros m. apply Permutation_sym, Permutation_rev. Qed.

(** C6, at the failing input: two runs of [src/main.go] on one command,
    each with an order that [range] may take over the two keys of the
    query, give the query entries in different orders. *)
Theorem query_order_differs :
  Main.admissible Main.range_up /\ Main.admissible Main.range_down
  /\ option_map (fun it => map Main.qkey (query (url_ (request it))))
                (Main.parseCurlCommand
                   Main.range_up "curl --request GET 'http://a.com/p?x=1&y=2'")
     = Some ["y"; "x"]
  /\ option_map (fun it => map Main.qkey (query (url_ (request it))))
                (Main.parseCurlCommand
                   Main.range_down "curl --request GET 'http://a.com/p?x=1&y=2'")
     = Some ["x"; "y"].
Proof.
  split; [apply range_up_admissible|]. split; [apply range_down_admissible|].
  split; vm_compute; reflexivity.
Qed.

End UrlObject.

(** ** Further properties of the normalizer and of the default scheme *)

Section NormalizerMore.

Local Abbreviation no_newline s := (sall (fun c => negb (Ascii.eqb c LF)) s).

Lemma join_continuations_id (n : nat) :
  forall s, String.length s <= n -> no_newline s = true ->
            join_continuations s = s.
Proof.
  induction n as [|n IH]; intros s Hn Hs.
  - destruct s; [reflexivity | simpl in Hn; lia].
  - destruct s as [|c [|d r]]; try reflexivity.
    cbn [join_continuations].
    assert (Hd : Ascii.eqb d LF = false).
    { simpl in Hs.
      apply andb_prop in Hs as [_ Hs]. apply andb_prop in Hs as [Hd _].
      now apply negb_true_iff in Hd. }
    rewrite Hd, andb_false_r. f_equal. apply (IH (String d r)).
    + simpl in Hn |- *. lia.
    + simpl in Hs. now apply andb_prop in Hs as [_ Hs].
Qed.

Lemma newlines_to_spaces_id (s : string) :
  no_newline s = true -> newlines_to_spaces s = s.
Proof.
  induction s as [|c s IH]; [reflexivity|].
  simpl. intros [Hc Hs]%andb_prop. apply negb_true_iff in Hc.
  now rewrite Hc, IH.
Qed.

(** X1: a command that is already on one line is left as it is, so the
    normalizer applied twice does what it does applied once. *)
Theorem normalize_fixes_single_lines (curlCommand : string) :
  (sall (fun c => negb (Ascii.eqb c LF)) curlCommand = true ->
   normalize curlCommand = curlCommand)
  /\ normalize (normalize curlCommand) = normalize curlCommand.
Proof.
  assert (H : forall s, no_newline s = true -> normalize s = s).
  { intros s Hs. unfold normalize.
    rewrite replace_continuations, replace_newlines.
    rewrite (join_continuations_id (String.length s)); auto.
    now apply newlines_to_spaces_id. }
  split; [apply H|]. apply H. unfold normalize.
  rewrite replace_newlines. apply newlines_to_spaces_no_newline.
Qed.

Lemma normalize_fixes_single_lines_witness :
  normalize "curl --request GET 'http://a.com'" = "curl --request GET 'http://a.com'".
Proof. apply (proj1 (normalize_fixes_single_lines _)). reflexivity. Defined.

(** X2: the URL handed to [url.Parse] always holds [://], and the default
    scheme is put in front at most once. *)
Theorem with_scheme_has_scheme_mark (extractedUrl : string) :
  strings.Contains (with_scheme extractedUrl) "://" = true
  /\ with_scheme (with_scheme extractedUrl) = with_scheme extractedUrl.
Proof.
  assert (H : strings.Contains (with_scheme extractedUrl) "://" = true).
  { unfold with_scheme. destruct (strings.Contains extractedUrl "://") eqn:E.
    - exact E.
    - cbn [negb]. apply (Contains_suffix "http" ("://" ++ extractedUrl)).
      apply HasPrefix_app. }
  split; [exact H|]. unfold with_scheme at 1. now rewrite H.
Qed.

End NormalizerMore.

(** ** The default scheme and the default method *)

Section DefaultScheme.

Lemma Cut_http t :
  exists u frag b, strings.Cut ("http://" ++ t) "#" = ("http://" ++ u, frag, b).
Proof.
  unfold strings.Cut. cbn [String.append strings.Index].
  rewrite !HasPrefix_cons. cbn [Ascii.eqb Bool.eqb andb].
  destruct (strings.Index t "#") as [i|]; cbn [option_map].
  - eexists (stake i t), _, _. reflexivity.
  - eexists t, _, _. reflexivity.
Qed.

Lemma parse_http t u :
  url.parse ("http://" ++ t) false = Some u -> url.Scheme u = "http".
Proof.
  unfold url.parse.
  assert (G : url.getScheme ("http://" ++ t) = Some ("http", "//" ++ t)) by reflexivity.
  rewrite G.
  change (("http://" ++ t =? "*")%string) with false. cbv iota.
  change (strings.ToLower "http") with "http".
  repeat match goal with
         | |- context [if ?b then _ else _] => destruct b
         | |- context [match ?x with _ => _ end] => destruct x
         end; intros H; try discriminate; try (injection H as <-; reflexivity).
Qed.

Lemma Parse_http t u :
  url.Parse ("http://" ++ t) = Some u -> url.Scheme u = "http".
Proof.
  unfold url.Parse. destruct (Cut_http t) as (u0 & frag & b & ->).
  destruct (url.parse ("http://" ++ u0) false) as [p|] eqn:E; [|discriminate].
  apply parse_http in E. destruct (is_empty frag).
  - now intros [= <-].
  - destruct (url.unescape frag url.encodeFragment); [|discriminate].
    now intros [= <-].
Qed.

Lemma with_scheme_http e u :
  strings.Contains e "://" = false ->
  url.Parse (with_scheme e) = Some u -> url.Scheme u = "http".
Proof. unfold with_scheme. intros ->. apply Parse_http. Qed.

(** X3: when the URL taken from the command holds no [://], the record that
    either variant builds has the protocol [http]. *)
Theorem protocol_defaults_to_http :
  (forall cmd it,
      strings.Contains (snd (Part000.method_and_url (normalize cmd))) "://" = false ->
      Part000.parseCurlCommand cmd = Some it ->
      protocol (url_ (request it)) = "http")
  /\ (forall range cmd it,
         strings.Contains (snd (Main.method_and_url (normalize cmd))) "://" = false ->
         Main.parseCurlCommand range cmd = Some it ->
         protocol (url_ (request it)) = "http").
Proof.
  split.
  - intros cmd it Hc. unfold Part000.parseCurlCommand.
    destruct (Part000.method_and_url (normalize cmd)) as [m e]. simpl in Hc.
    destruct (url.Parse (with_scheme e)) as [u|] eqn:E; [|discriminate].
    destruct (is_empty (url.Hostname u)); [discriminate|].
    intros [= <-]. simpl. eapply with_scheme_http; eauto.
  - intros range cmd it Hc. unfold Main.parseCurlCommand.
    destruct (Main.method_and_url (normalize cmd)) as [m e]. simpl in Hc.
    destruct (url.Parse (with_scheme e)) as [u|] eqn:E; [|discriminate].
    intros [= <-]. simpl. eapply with_scheme_http; eauto.
Qed.

Lemma protocol_defaults_to_http_witness :
  exists it,
    Part000.parseCurlCommand "curl --request GET --url api.example.com:8080/users"
    = Some it
    /\ protocol (url_ (request it)) = "http".
Proof.
  eexists. split; [vm_compute; reflexivity|].
  apply (proj1 protocol_defaults_to_http
               "curl --request GET --url api.example.com:8080/users");
    vm_compute; reflexivity.
Defined.

Lemma query_entries_empty keys : Main.query_entries ∅ keys = [].
Proof.
  unfold Main.query_entries. induction keys as [|k keys IH]; [reflexivity|].
  simpl. now rewrite lookup_empty.
Qed.

(** X4: a command without [--request]: [src/unnamed/part_000] returns [nil],
    [src/main.go] builds a [GET] request for the URL [http://], whose host
    is empty. *)
Theorem no_request_option (cmd : string) :
  strings.Contains (normalize cmd) "--request" = false ->
  Part000.parseCurlCommand cmd = None
  /\ forall range,
      exists it,
        Main.parseCurlCommand range cmd = Some it
        /\ method (request it) = "GET"
        /\ url_ (request it)
           = {| protocol := "http"; host := [""]; port := ""; path := [""];
                query := [] |}.
Proof.
  intros H. split.
  - unfold Part000.parseCurlCommand, Part000.method_and_url, Part000.reMethodAndUrl.
    rewrite (data_absent "--request" _ _ H). reflexivity.
  - intros range. unfold Main.parseCurlCommand, Main.method_and_url, Main.reMethodAndUrl.
    rewrite (data_absent "--request " _ _ (Contains_longer _ "--request" " " H)).
    cbv beta iota zeta. 
    replace (url.Parse (with_scheme ""))
      with (Some {| url.Scheme := "http"; url.Opaque := ""; url.User := None;
                    url.Host := ""; url.Path := ""; url.ForceQuery := false;
                    url.RawQuery := ""; url.Fragment := "" |})
      by (vm_compute; reflexivity).
    eexists. split; [reflexivity|]. split; [reflexivity|]. simpl.
    change (url.Query _) with (∅ : url.Values).
    now rewrite query_entries_empty.
Qed.

Lemma no_request_option_witness :
  Part000.parseCurlCommand "curl http://a.com/users" = None.
Proof. apply (proj1 (no_request_option "curl http://a.com/users" eq_refl)). Defined.

End DefaultScheme.

(** ** The name of an entry *)

Section NameOf.

Local Abbreviation slash := (fun c : ascii => Ascii.eqb c "/").

Lemma nth_last (l : list string) :
  nth (length l - 1) l "" = List.last l "".
Proof.
  induction l as [|x [|y l] IH]; try reflexivity.
  simpl in *. now rewrite Nat.sub_0_r in IH.
Qed.

Lemma HasPrefix_slash c s :
  strings.HasPrefix (String c s) "/" = Ascii.eqb c "/".
Proof. now rewrite HasPrefix_cons, HasPrefix_nil, andb_true_r. Qed.

Lemma HasSuffix_cons c s p :
  strings.HasSuffix (String c s) p = String.eqb (String c s) p || strings.HasSuffix s p.
Proof. reflexivity. Qed.

(** [Split(s, "/")]: the last segment is what follows the last slash. *)
Lemma split_slash_last (s : string) :
  let segs := strings.Split s "/" in
  strings.Contains (List.last segs "") "/" = false
  /\ exists pre,
      s = pre ++ List.last segs ""
      /\ (pre = "" /\ length segs = 1
          \/ strings.HasSuffix pre "/" = true /\ 1 < length segs).
Proof.
  unfold strings.Split. induction s as [|c s IH]; cbn zeta in *.
  - split; [reflexivity|]. exists "". split; [reflexivity|]. now left.
  - destruct IH as (Hno & pre & Hs & Hpre).
    cbn [strings.split_from]. rewrite HasPrefix_slash.
    change (String.length "/" - 1) with 0.
    destruct (Ascii.eqb c "/") eqn:Ec.
    + apply Ascii.eqb_eq in Ec. subst c.
      destruct (strings.split_from "/" 0 s) as [|seg segs] eqn:E.
      { destruct Hpre as [[_ H]|[_ H]]; simpl in H; lia. }
      change (List.last ("" :: seg :: segs) "") with (List.last (seg :: segs) "").
      split; [exact Hno|]. exists (String "/" pre). split.
      * cbn [String.append]. now f_equal.
      * right. split; [|simpl; lia].
        rewrite HasSuffix_cons. destruct Hpre as [[-> _]|[-> _]];
          [reflexivity | apply orb_true_r].
    + destruct (strings.split_from "/" 0 s) as [|seg [|seg' segs]] eqn:E.
      { destruct Hpre as [[_ H]|[_ H]]; simpl in H; lia. }
      * destruct Hpre as [[-> _]|[_ H]]; [|simpl in H; lia].
        cbn [List.last] in *. cbn [String.append] in Hs. subst s. split.
        -- cbn [strings.Contains]. rewrite HasPrefix_slash, Ec. exact Hno.
        -- exists "". split; [reflexivity|]. now left.
      * change (List.last (String c seg :: seg' :: segs) "")
          with (List.last (seg :: seg' :: segs) "").
        split; [exact Hno|]. exists (String c pre). split.
        -- cbn [String.append]. now f_equal.
        -- right. split; [|simpl; lia].
           destruct Hpre as [[_ H]|[H _]]; [simpl in H; lia|].
           rewrite HasSuffix_cons, H. apply orb_true_r.
Qed.

Lemma TrimLeft_empty (s : string) :
  is_empty (strings.TrimLeft s "/") = sall slash s.
Proof.
  induction s as [|c s IH]; [reflexivity|]. cbn [strings.TrimLeft sall byte_in].
  rewrite orb_false_r. destruct (Ascii.eqb c "/"); [exact IH | reflexivity].
Qed.

Lemma TrimRight_empty (s : string) :
  is_empty (strings.TrimRight s "/") = sall slash s.
Proof.
  induction s as [|c s IH]; [reflexivity|]. cbn [strings.TrimRight sall byte_in].
  rewrite orb_false_r.
  destruct (strings.TrimRight s "/"); simpl in IH; rewrite <- IH.
  - destruct (Ascii.eqb c "/"); reflexivity.
  - now rewrite andb_false_r.
Qed.

Lemma TrimRight_no_trailing (s : string) :
  strings.HasSuffix (strings.TrimRight s "/") "/" = false.
Proof.
  induction s as [|c s IH]; [reflexivity|]. cbn [strings.TrimRight byte_in].
  rewrite orb_false_r.
  destruct (strings.TrimRight s "/") as [|d t].
  - destruct (Ascii.eqb c "/") eqn:Ec; [reflexivity|].
    rewrite HasSuffix_cons. simpl. now rewrite Ec.
  - rewrite HasSuffix_cons, IH. simpl. destruct (Ascii.eqb c "/"); reflexivity.
Qed.

Lemma Trim_empty (s : string) :
  is_empty (strings.Trim s "/") = sall slash s.
Proof.
  unfold strings.Trim. rewrite TrimRight_empty, <- (TrimLeft_empty s).
  destruct (TrimLeft_slashes s) as (sl & _ & _ & Hp).
  destruct (strings.TrimLeft s "/") as [|c t]; [reflexivity|].
  rewrite HasPrefix_slash in Hp. simpl. now rewrite Hp.
Qed.

(** [name_of]: the text that follows the last slash of the path once the
    slashes at its two ends are cut. *)
Lemma name_of_last_segment (parsedUrl : url.URL) :
  strings.Contains (Part000.name_of parsedUrl) "/" = false
  /\ (exists pre,
         strings.Trim (url.Path parsedUrl) "/" = pre ++ Part000.name_of parsedUrl
         /\ (is_empty pre = true \/ strings.HasSuffix pre "/" = true))
  /\ is_empty (Part000.name_of parsedUrl)
     = sall (fun c => Ascii.eqb c "/") (url.Path parsedUrl).
Proof.
  set (t := strings.Trim (url.Path parsedUrl) "/").
  assert (Hn : Part000.name_of parsedUrl = List.last (strings.Split t "/") "").
  { unfold Part000.name_of. fold t.
    destruct (split_slash_last t) as (_ & _ & _ & [[_ H]|[_ H]]);
      rewrite nth_last;
      destruct (strings.Split t "/"); simpl in H; try lia; reflexivity. }
  rewrite Hn. destruct (split_slash_last t) as (Hno & pre & Hs & Hpre).
  cbn zeta in *. split; [exact Hno|]. split.
  - exists pre. split; [exact Hs|].
    destruct Hpre as [[-> _]|[H _]]; [now left | now right].
  - rewrite <- Trim_empty. fold t.
    destruct (List.last (strings.Split t "/") "") as [|c n] eqn:El.
    + rewrite sapp_nil_r in Hs. destruct Hpre as [[-> _]|[H _]].
      * now rewrite Hs.
      * rewrite <- Hs in H. unfold t, strings.Trim in H.
        now rewrite TrimRight_no_trailing in H.
    + rewrite Hs. now destruct pre.
Qed.

End NameOf.

(** ** What a header of the result is *)

Section Inversion.

Context {A : Type}.
Import regexp.

Lemma star_greedy_inv cls s (k : string -> option A) x :
  star_greedy cls s k = Some x ->
  exists a b, s = a ++ b /\ sall cls a = true /\ k b = Some x.
Proof.
  induction s as [|c s IH]; cbn [star_greedy]; intros H.
  - exists "", "". auto.
  - destruct (cls c) eqn:Ec; [|exists "", (String c s); auto].
    destruct (star_greedy cls s k) as [r|] eqn:E; [|exists "", (String c s); auto].
    injection H as ->. destruct (IH eq_refl) as (a & b & -> & Ha & Hb).
    exists (String c a), b. cbn [sall String.append]. rewrite Ec, Ha. auto.
Qed.

Lemma run_lit_inv text s caps (K : Cont A) x :
  run (Lit text) s caps K = Some x ->
  exists s', s = text ++ s' /\ K s' caps = Some x.
Proof.
  cbn [run]. destruct (strings.HasPrefix s text) eqn:E; [|discriminate].
  intros H. exists (sdrop (String.length text) s). split; [|exact H].
  now apply HasPrefix_split.
Qed.

Lemma run_cap_plus_inv cls s caps (K : Cont A) x :
  run (Cap (Plus true cls)) s caps K = Some x ->
  exists a b,
    s = a ++ b /\ is_empty a = false /\ sall cls a = true
    /\ K b (caps ++ [a])%list = Some x.
Proof.
  cbn [run]. destruct s as [|c s]; [discriminate|].
  destruct (cls c) eqn:Ec; [|discriminate].
  unfold star. intros H. apply star_greedy_inv in H as (a & b & -> & Ha & Hb).
  exists (String c a), b. cbn [sall]. rewrite Ec, Ha.
  repeat split; auto.
  change (String c (a ++ b)) with (String c a ++ b) in Hb.
  now rewrite stake_matched in Hb.
Qed.

Lemma run_cap_star_inv cls s caps (K : Cont A) x :
  run (Cap (Star true cls)) s caps K = Some x ->
  exists a b,
    s = a ++ b /\ sall cls a = true /\ K b (caps ++ [a])%list = Some x.
Proof.
  cbn [run]. unfold star. intros H.
  apply star_greedy_inv in H as (a & b & -> & Ha & Hb).
  exists a, b. repeat split; auto. now rewrite stake_matched in Hb.
Qed.

End Inversion.

Section HeadersSound.

Import regexp.

Lemma reHeader_inv t caps rest :
  match_here reHeader t = Some (caps, rest) ->
  exists k v,
    t = "--header '" ++ k ++ ": " ++ v ++ "'" ++ rest
    /\ caps = [k; v]
    /\ is_empty k = false /\ sall (except ":") k = true
    /\ sall (except "'") v = true.
Proof.
  unfold match_here, reHeader. rewrite run_seq. intros H.
  apply run_lit_inv in H as (s1 & -> & H). rewrite run_seq in H.
  apply run_cap_plus_inv in H as (k & s2 & -> & Hk0 & Hk & H).
  rewrite run_seq in H. apply run_lit_inv in H as (s3 & -> & H).
  rewrite run_seq in H. apply run_cap_star_inv in H as (v & s4 & -> & Hv & H).
  apply run_lit_inv in H as (s5 & -> & H). injection H as <- <-.
  exists k, v. repeat split; auto.
Qed.

Lemma find_all_from_inv re s :
  forall n m,
    In m (find_all_from re n s) ->
    exists p t caps rest,
      s = p ++ t /\ match_here re t = Some (caps, rest)
      /\ m = matched t rest :: caps.
Proof.
  induction s as [|c s IH]; intros n m; cbn [find_all_from]; [intros []|].
  assert (Hs : forall n, In m (find_all_from re n s) ->
                         exists p t caps rest,
                           String c s = p ++ t
                           /\ match_here re t = Some (caps, rest)
                           /\ m = matched t rest :: caps).
  { intros n' H. destruct (IH _ _ H) as (p & t & caps & rest & -> & Ht & Hm).
    exists (String c p), t, caps, rest. auto. }
  destruct n as [|n]; [|apply Hs].
  destruct (match_here re (String c s)) as [[caps rest]|] eqn:E; [|apply Hs].
  intros [<-|H]; [|eapply Hs; eauto].
  exists "", (String c s), caps, rest. auto.
Qed.

(** X6: every header of the result comes from a piece [--header 'K: V'] of the
    command: its key is not empty and holds no colon, its value holds no
    quote. *)
Theorem headers_sound (curlCommand : string) (h : Header) :
  In h (headers_of curlCommand) ->
  is_empty (key h) = false
  /\ sall (except ":") (key h) = true
  /\ sall (except "'") (value h) = true
  /\ strings.Contains curlCommand
       ("--header '" ++ key h ++ ": " ++ value h ++ "'") = true.
Proof.
  unfold headers_of, FindAllStringSubmatch. intros H.
  apply in_map_iff in H as (m & <- & H).
  apply find_all_from_inv in H as (p & t & caps & rest & -> & Ht & ->).
  apply reHeader_inv in Ht as (k & v & -> & -> & Hk0 & Hk & Hv).
  cbn [nth key value]. repeat split; auto.
  apply Contains_suffix.
  replace ("--header '" ++ k ++ ": " ++ v ++ "'" ++ rest)
    with (("--header '" ++ k ++ ": " ++ v ++ "'") ++ rest).
  - apply HasPrefix_app.
  - now rewrite !sapp_assoc.
Qed.

Lemma headers_sound_witness :
  strings.Contains "curl --header 'Accept: text/plain' --header 'Host: a.com'"
    ("--header '" ++ "Host" ++ ": " ++ "a.com" ++ "'") = true.
Proof.
  apply (headers_sound
           "curl --header 'Accept: text/plain' --header 'Host: a.com'"
           {| key := "Host"; value := "a.com" |}).
  vm_compute. right. left. reflexivity.
Defined.

End HeadersSound.

(** ** Continuation lines *)

Section Continuations.

Lemma join_continuations_cons2 c d r :
  join_continuations (String c (String d r))
  = if Ascii.eqb c "\" && Ascii.eqb d LF
    then String " " (join_continuations r)
    else String c (join_continuations (String d r)).
Proof. reflexivity. Qed.

(** The first replacement goes through a concatenation whose second part
    does not start with a newline. *)
Lemma join_continuations_app (n : nat) :
  forall a s,
    String.length a <= n -> strings.HasPrefix s (String LF "") = false ->
    join_continuations (a ++ s) = join_continuations a ++ join_continuations s.
Proof.
  induction n as [|n IH]; intros a s Hn Hs.
  - destruct a; [reflexivity | simpl in Hn; lia].
  - destruct a as [|c [|d r]]; [reflexivity| |].
    + cbn [String.append]. destruct s as [|d s]; [reflexivity|].
      rewrite join_continuations_cons2.
      rewrite HasPrefix_cons, HasPrefix_nil, andb_true_r in Hs.
      now rewrite Hs, andb_false_r.
    + cbn [String.append]. rewrite !join_continuations_cons2.
      destruct (Ascii.eqb c "\" && Ascii.eqb d LF).
      * cbn [String.append]. f_equal. apply IH; [simpl in Hn; lia | exact Hs].
      * cbn [String.append]. f_equal. apply (IH (String d r));
          [simpl in Hn |- *; lia | exact Hs].
Qed.

Lemma newlines_to_spaces_app a b :
  newlines_to_spaces (a ++ b) = newlines_to_spaces a ++ newlines_to_spaces b.
Proof.
  induction a as [|c a IH]; [reflexivity|].
  cbn [String.append newlines_to_spaces]. now rewrite IH.
Qed.

Lemma normalize_continuation a b :
  normalize (a ++ String "\" (String LF "") ++ b) = normalize (a ++ " " ++ b).
Proof.
  unfold normalize. rewrite !replace_continuations.
  rewrite (join_continuations_app (String.length a) a (String "\" (String LF "") ++ b)),
    (join_continuations_app (String.length a) a (" " ++ b)) by (auto; reflexivity).
  f_equal. f_equal. cbn [String.append].
  rewrite join_continuations_cons2. cbn [Ascii.eqb Bool.eqb andb].
  change (Ascii.eqb LF LF) with true. cbv iota.
  destruct b as [|c b]; [reflexivity|].
  rewrite join_continuations_cons2. reflexivity.
Qed.

(** X7: a line that ends in a backslash continues on the next one: the
    command reads as if the two bytes were one space, in both variants. *)
Theorem continuation_reads_as_space (a b : string) :
  normalize (a ++ String "\" (String LF "") ++ b) = normalize (a ++ " " ++ b)
  /\ Part000.parseCurlCommand (a ++ String "\" (String LF "") ++ b)
     = Part000.parseCurlCommand (a ++ " " ++ b)
  /\ forall range,
      Main.parseCurlCommand range (a ++ String "\" (String LF "") ++ b)
      = Main.parseCurlCommand range (a ++ " " ++ b).
Proof.
  pose proof (normalize_continuation a b) as H.
  split; [exact H|]. split.
  - unfold Part000.parseCurlCommand. now rewrite H.
  - intros range. unfold Main.parseCurlCommand. now rewrite H.
Qed.

End Continuations.

(** ** The query entries of [src/main.go] *)

Section QueryFacts.

Lemma range_order_keys (values : url.Values) keys k :
  Main.range_order values keys ->
  In k keys <-> exists vs, values !! k = Some vs.
Proof.
  unfold Main.range_order. intros H. split.
  - intros Hk. apply (Permutation_in _ H) in Hk.
    apply in_map_iff in Hk as ([k' vs] & <- & Hin).
    apply list_elem_of_In, elem_of_map_to_list in Hin. now exists vs.
  - intros [vs Hvs]. apply (Permutation_in _ (Permutation_sym H)).
    apply in_map_iff. exists (k, vs). split; [reflexivity|].
    now apply list_elem_of_In, elem_of_map_to_list.
Qed.

(** X8: the query list of [src/main.go] holds one enabled entry for each value
    of each key of [parsedUrl.Query()], whatever order the run takes. *)
Theorem query_entries_spec (values : url.Values) (keys : list string) :
  Main.range_order values keys ->
  forall q,
    In q (Main.query_entries values keys)
    <-> Main.disabled q = false
        /\ exists vs, values !! Main.qkey q = Some vs /\ In (Main.qvalue q) vs.
Proof.
  intros H q. unfold Main.query_entries. rewrite in_flat_map. split.
  - intros (k & Hk & Hq). apply in_map_iff in Hq as (v & <- & Hv).
    cbn. split; [reflexivity|].
    apply (range_order_keys _ _ _ H) in Hk as [vs Hvs].
    rewrite Hvs in Hv. now exists vs.
  - intros (Hd & vs & Hvs & Hv). exists (Main.qkey q). split.
    + apply (range_order_keys _ _ _ H). now exists vs.
    + apply in_map_iff. exists (Main.qvalue q). rewrite Hvs. split; [|exact Hv].
      destruct q as [k v d]. cbn in *. now subst d.
Qed.

Lemma query_entries_spec_witness :
  In {| Main.qkey := "x"; Main.qvalue := "1"; Main.disabled := false |}
     (Main.query_entries (url.ParseQuery "x=1&y=2")
                         (Main.range_down (url.ParseQuery "x=1&y=2"))).
Proof.
  apply (proj2 (query_entries_spec _ _ (range_down_admissible _) _)).
  split; [reflexivity|]. exists ["1"]. split; [vm_compute; reflexivity|].
  left. reflexivity.
Defined.

(** X9: two runs of [src/main.go] on one command agree on everything but the
    order of the query entries: both panic or neither does, every other
    field is the same, and the query lists are permutations of each
    other. *)
Theorem runs_agree_up_to_query_order (range1 range2 : url.Values -> list string)
        (cmd : string) :
  Main.admissible range1 -> Main.admissible range2 ->
  option_map (fun it => (name it, disableBodyPruning it, response it,
                         method (request it), header (request it),
                         body (request it), protocol (url_ (request it)),
                         host (url_ (request it)), port (url_ (request it)),
                         path (url_ (request it))))
             (Main.parseCurlCommand range1 cmd)
  = option_map (fun it => (name it, disableBodyPruning it, response it,
                           method (request it), header (request it),
                           body (request it), protocol (url_ (request it)),
                           host (url_ (request it)), port (url_ (request it)),
                           path (url_ (request it))))
               (Main.parseCurlCommand range2 cmd)
  /\ forall it1 it2,
      Main.parseCurlCommand range1 cmd = Some it1 ->
      Main.parseCurlCommand range2 cmd = Some it2 ->
      Permutation (query (url_ (request it1))) (query (url_ (request it2))).
Proof.
  intros H1 H2. unfold Main.parseCurlCommand.
  destruct (Main.method_and_url (normalize cmd)) as [m e].
  destruct (url.Parse (with_scheme e)) as [u|]; [|split; [reflexivity | discriminate]].
  split; [reflexivity|]. intros it1 it2 [= <-] [= <-]. cbn.
  unfold Main.query_entries. apply Permutation_flat_map.
  rewrite (H1 (url.Query u)). symmetry. apply H2.
Qed.

Lemma runs_agree_up_to_query_order_witness :
  exists it1 it2,
    Main.parseCurlCommand Main.range_up "curl --request GET 'http://a.com/p?x=1&y=2'"
    = Some it1
    /\ Main.parseCurlCommand
         Main.range_down "curl --request GET 'http://a.com/p?x=1&y=2'"
       = Some it2
    /\ Permutation (query (url_ (request it1))) (query (url_ (request it2))).
Proof.
  eexists. eexists. split; [vm_compute; reflexivity|].
  split; [vm_compute; reflexivity|].
  apply (proj2 (runs_agree_up_to_query_order
                  Main.range_up Main.range_down
                  "curl --request GET 'http://a.com/p?x=1&y=2'"
                  range_up_admissible range_down_admissible));
    vm_compute; reflexivity.
Defined.

End QueryFacts.

(** ** The loops of [main] *)

Section MainLoop.

Lemma collect_none range curl curls :
  In curl curls -> Main.parseCurlCommand range curl = None ->
  Main.collect range curls = None.
Proof.
  intros Hin Hc. induction curls as [|c curls IH]; [destruct Hin|].
  cbn [Main.collect]. destruct Hin as [->|Hin].
  - now rewrite Hc.
  - destruct (Main.parseCurlCommand range c); [|reflexivity].
    now rewrite (IH Hin).
Qed.

(** X10: one command whose URL does not parse stops [src/main.go]: the nil
    [*url.URL] is dereferenced, and [output.json] is not written whatever
    the other fixtures hold. *)
Theorem main_panics_on_unparsed_url (range : url.Values -> list string)
        (w : World) (files : list DirEntry) (curl : string) :
  getwd_error w = false -> keploy w = Keploy files ->
  In curl (curls_of_files files) ->
  Main.parseCurlCommand range curl = None ->
  Main.main range w = Panicked.
Proof.
  intros Hg Hk Hin Hc. unfold Main.main. rewrite Hg, Hk.
  now rewrite (collect_none _ _ _ Hin Hc).
Qed.

Lemma main_panics_on_unparsed_url_witness :
  Main.main Main.range_up
    {| getwd_error := false;
       keploy :=
         Keploy [{| entry_name := "test-set-0";
                    tests :=
                      Tests [{| file_name := "test-1.yaml";
                                fixture := Curl "curl --request GET 'http://a.com/'" |};
                             {| file_name := "test-2.yaml";
                                fixture := Curl "curl --request GET 'http://a b/'" |}] |}];
       write_error := false |}
  = Panicked.
Proof.
  eapply (main_panics_on_unparsed_url _ _ _ "curl --request GET 'http://a b/'").
  - reflexivity.
  - reflexivity.
  - vm_compute. right. left. reflexivity.
  - vm_compute. reflexivity.
Defined.

Lemma Ext_yaml (s : string) :
  String.eqb (Ext s) ".yaml" = strings.HasSuffix s ".yaml".
Proof.
  induction s as [|c s IH]; [reflexivity|].
  cbn [Ext strings.HasSuffix]. rewrite <- IH.
  destruct (String.eqb (String c s) ".yaml") eqn:Es.
  - apply String.eqb_eq in Es. injection Es as -> ->. reflexivity.
  - destruct (Ext s) as [|a e]; [|reflexivity].
    destruct (strings.Contains s "/"); [reflexivity|].
    destruct (Ascii.eqb c "."); [|reflexivity]. now rewrite Es.
Qed.

(** X11: the commands that reach [parseCurlCommand] are the strings under
    [curl] of the files whose name ends in [.yaml], in the [tests] folder
    of the entries of [keploy] whose name holds [test-set]. *)
Theorem curls_of_files_spec (files : list DirEntry) (curl : string) :
  In curl (curls_of_files files)
  <-> exists v testFiles testFile,
      In v files
      /\ strings.Contains (entry_name v) "test-set" = true
      /\ tests v = Tests testFiles
      /\ In testFile testFiles
      /\ strings.HasSuffix (file_name testFile) ".yaml" = true
      /\ fixture testFile = Curl curl.
Proof.
  unfold curls_of_files, curls_of_tests. rewrite in_flat_map. split.
  - intros (v & Hv & H). destruct (strings.Contains (entry_name v) "test-set") eqn:Ev;
      [|destruct H].
    destruct (tests v) as [| |testFiles] eqn:Et; try destruct H.
    apply in_flat_map in H as (f & Hf & H). rewrite Ext_yaml in H.
    destruct (strings.HasSuffix (file_name f) ".yaml") eqn:Ef; [|destruct H].
    destruct (fixture f) eqn:Ex; try destruct H as [H|H]; try destruct H.
    exists v, testFiles, f. repeat split; auto.
  - intros (v & testFiles & f & Hv & Ev & Et & Hf & Ef & Ex).
    exists v. split; [exact Hv|]. rewrite Ev, Et. apply in_flat_map.
    exists f. split; [exact Hf|]. rewrite Ext_yaml, Ef, Ex. now left.
Qed.

End MainLoop.


(** ** Host and port *)

Section HostAndPort.

Lemma sdrop_succ (n : nat) :
  forall s, sdrop (n + 1) s = sdrop 1 (sdrop n s).
Proof.
  induction n as [|n IH]; intros s; [reflexivity|].
  destruct s as [|c s]; [reflexivity|]. cbn [Nat.add sdrop]. apply IH.
Qed.

Lemma Port_digits (u : url.URL) : sall is_digit (url.Port u) = true.
Proof.
  unfold url.Port, url.splitHostPort.
  destruct (strings.LastIndex (url.Host u) ":") as [colon|].
  - destruct (url.validOptionalPort (sdrop colon (url.Host u))) eqn:E.
    + rewrite sdrop_succ.
      destruct (sdrop colon (url.Host u)) as [|c digits]; [now destruct (_ && _)|].
      cbn [url.validOptionalPort] in E. apply andb_prop in E as [_ E].
      now destruct (_ && _).
    + now destruct (_ && _).
  - now destruct (_ && _).
Qed.

(** X12: the URL object of a record: one host entry, which is not empty in
    [src/unnamed/part_000], and a port made of digits only. *)
Theorem host_and_port_shape :
  (forall cmd it,
      Part000.parseCurlCommand cmd = Some it ->
      exists h,
        host (url_ (request it)) = [h] /\ is_empty h = false
        /\ sall is_digit (port (url_ (request it))) = true)
  /\ (forall range cmd it,
         Main.parseCurlCommand range cmd = Some it ->
         exists h,
           host (url_ (request it)) = [h]
           /\ sall is_digit (port (url_ (request it))) = true).
Proof.
  split.
  - intros cmd it. unfold Part000.parseCurlCommand.
    destruct (Part000.method_and_url (normalize cmd)) as [m e].
    destruct (url.Parse (with_scheme e)) as [u|]; [|discriminate].
    destruct (is_empty (url.Hostname u)) eqn:E; [discriminate|].
    intros [= <-]. exists (url.Hostname u). cbn.
    repeat split; auto using Port_digits.
  - intros range cmd it. unfold Main.parseCurlCommand.
    destruct (Main.method_and_url (normalize cmd)) as [m e].
    destruct (url.Parse (with_scheme e)) as [u|]; [|discriminate].
    intros [= <-]. exists (url.Hostname u). cbn.
    repeat split; auto using Port_digits.
Qed.

Lemma host_and_port_shape_witness :
  exists it,
    Part000.parseCurlCommand "curl --request GET --url http://a.com:8080/users"
    = Some it
    /\ exists h,
        host (url_ (request it)) = [h] /\ is_empty h = false
        /\ sall is_digit (port (url_ (request it))) = true.
Proof.
  eexists. split; [vm_compute; reflexivity|].
  apply (proj1 host_and_port_shape
               "curl --request GET --url http://a.com:8080/users").
  vm_compute. reflexivity.
Defined.

End HostAndPort.

(** ** What the method, the URL and the body are taken from *)

Section MoreInversion.

Context {A : Type}.
Import regexp.

Lemma star_lazy_inv cls s (k : string -> option A) x :
  star_lazy cls s k = Some x ->
  exists a b, s = a ++ b /\ sall cls a = true /\ k b = Some x.
Proof.
  induction s as [|c s IH]; cbn [star_lazy]; intros H.
  - destruct (k "") eqn:E; [|discriminate]. exists "", "". rewrite E. auto.
  - destruct (k (String c s)) eqn:E.
    + exists "", (String c s). rewrite E. auto.
    + destruct (cls c) eqn:Ec; [|discriminate].
      destruct (IH H) as (a & b & -> & Ha & Hb).
      exists (String c a), b. cbn [sall String.append]. rewrite Ec, Ha. auto.
Qed.

Lemma run_plus_inv cls s caps (K : Cont A) x :
  run (Plus true cls) s caps K = Some x ->
  exists a b,
    s = a ++ b /\ is_empty a = false /\ sall cls a = true /\ K b caps = Some x.
Proof.
  cbn [run]. destruct s as [|c s]; [discriminate|].
  destruct (cls c) eqn:Ec; [|discriminate].
  unfold star. intros H. apply star_greedy_inv in H as (a & b & -> & Ha & Hb).
  exists (String c a), b. cbn [sall]. rewrite Ec, Ha. auto.
Qed.

Lemma run_cap_braces_inv s caps (K : Cont A) x :
  run (Cap (Lit "{" @@ Star false dot @@ Lit "}")) s caps K = Some x ->
  exists a b,
    s = "{" ++ a ++ "}" ++ b /\ sall dot a = true
    /\ K b (List.app caps ["{" ++ a ++ "}"]) = Some x.
Proof.
  cbn [run]. destruct (strings.HasPrefix s "{") eqn:E1; [|discriminate].
  apply HasPrefix_split in E1. destruct s as [|c s]; [discriminate|].
  cbn [sdrop String.length String.append] in E1. injection E1 as ->.
  cbn [sdrop String.length]. unfold star. intros H.
  apply star_lazy_inv in H as (a & b & -> & Ha & H).
  destruct (strings.HasPrefix b "}") eqn:E2; [|discriminate].
  apply HasPrefix_split in E2. destruct b as [|c b]; [discriminate|].
  cbn [sdrop String.length String.append] in E2. injection E2 as ->.
  cbn [sdrop String.length] in H.
  exists a, b. repeat split; auto.
  assert (E : String "{" (a ++ String "}" b) = ("{" ++ a ++ "}") ++ b)
    by (now rewrite !sapp_assoc).
  change (S (String.length (a ++ String "}" b)))
    with (String.length (String "{" (a ++ String "}" b))) in H.
  now rewrite E, stake_matched in H.
Qed.

End MoreInversion.

Section Extraction.

Import regexp.

Lemma find_inv re s m :
  find re s = Some m ->
  exists p t caps rest,
    s = p ++ t /\ match_here re t = Some (caps, rest)
    /\ m = matched t rest :: caps.
Proof.
  induction s as [|c s IH]; cbn [find].
  - destruct (match_here re "") as [[caps rest]|] eqn:E; [|discriminate].
    intros [= <-]. exists "", "", caps, rest. auto.
  - destruct (match_here re (String c s)) as [[caps rest]|] eqn:E.
    + intros [= <-]. exists "", (String c s), caps, rest. auto.
    + intros H. destruct (IH H) as (p & t & caps & rest & -> & Ht & Hm).
      exists (String c p), t, caps, rest. auto.
Qed.

Lemma FindStringSubmatch_inv re s :
  FindStringSubmatch re s = []
  \/ exists p t caps rest,
      s = p ++ t /\ match_here re t = Some (caps, rest)
      /\ FindStringSubmatch re s = matched t rest :: caps.
Proof.
  unfold FindStringSubmatch. destruct (find re s) as [m|] eqn:E; [|now left].
  right. apply find_inv in E as (p & t & caps & rest & H1 & H2 & H3).
  exists p, t, caps, rest. auto.
Qed.

Lemma Contains_infix p m rest :
  strings.Contains (p ++ m ++ rest) m = true.
Proof. apply Contains_suffix, HasPrefix_app. Qed.

Lemma Main_reMethodAndUrl_inv t caps rest :
  match_here Main.reMethodAndUrl t = Some (caps, rest) ->
  exists m u,
    t = ("--request " ++ m ++ " '" ++ u ++ "'") ++ rest /\ caps = [m; u]
    /\ is_empty m = false /\ sall word m = true /\ sall (except "'") u = true.
Proof.
  unfold match_here, Main.reMethodAndUrl. rewrite run_seq. intros H.
  apply run_lit_inv in H as (s1 & -> & H). rewrite run_seq in H.
  apply run_cap_plus_inv in H as (m & s2 & -> & Hm0 & Hm & H).
  rewrite run_seq in H. apply run_lit_inv in H as (s3 & -> & H).
  rewrite run_seq in H. apply run_cap_star_inv in H as (u & s4 & -> & Hu & H).
  apply run_lit_inv in H as (s5 & -> & H). injection H as <- <-.
  exists m, u. repeat split; auto. now rewrite !sapp_assoc.
Qed.

Lemma Part000_reMethodAndUrl_inv t caps rest :
  match_here Part000.reMethodAndUrl t = Some (caps, rest) ->
  exists sp1 m sp2 sp3 u,
    t = ("--request" ++ sp1 ++ m ++ sp2 ++ "--url" ++ sp3 ++ u) ++ rest
    /\ caps = [m; u]
    /\ (is_empty sp1 = false /\ sall space sp1 = true)
    /\ (is_empty sp2 = false /\ sall space sp2 = true)
    /\ (is_empty sp3 = false /\ sall space sp3 = true)
    /\ is_empty m = false /\ sall word m = true
    /\ is_empty u = false /\ sall (except " ") u = true.
Proof.
  unfold match_here, Part000.reMethodAndUrl. rewrite run_seq. intros H.
  apply run_lit_inv in H as (s1 & -> & H). rewrite run_seq in H.
  apply run_plus_inv in H as (sp1 & s2 & -> & H10 & H1 & H). rewrite run_seq in H.
  apply run_cap_plus_inv in H as (m & s3 & -> & Hm0 & Hm & H).
  rewrite run_seq in H.
  apply run_plus_inv in H as (sp2 & s4 & -> & H20 & H2 & H). rewrite run_seq in H.
  apply run_lit_inv in H as (s5 & -> & H). rewrite run_seq in H.
  apply run_plus_inv in H as (sp3 & s6 & -> & H30 & H3 & H).
  apply run_cap_plus_inv in H as (u & s7 & -> & Hu0 & Hu & H).
  injection H as <- <-.
  exists sp1, m, sp2, sp3, u. repeat split; auto. now rewrite !sapp_assoc.
Qed.

(** X13: what the two variants take as method and URL is either the default
    pair or the two groups of a piece of the command that has the form of
    the variant's pattern. *)
Theorem method_and_url_sound (curlCommand : string) :
  (Main.method_and_url curlCommand = ("GET", "")
   \/ exists m u,
       Main.method_and_url curlCommand = (m, u)
       /\ is_empty m = false /\ sall word m = true /\ sall (except "'") u = true
       /\ strings.Contains curlCommand ("--request " ++ m ++ " '" ++ u ++ "'") = true)
  /\ (Part000.method_and_url curlCommand = ("GET", "")
      \/ exists sp1 m sp2 sp3 u,
          Part000.method_and_url curlCommand = (m, u)
          /\ (is_empty sp1 = false /\ sall space sp1 = true)
          /\ (is_empty sp2 = false /\ sall space sp2 = true)
          /\ (is_empty sp3 = false /\ sall space sp3 = true)
          /\ is_empty m = false /\ sall word m = true
          /\ is_empty u = false /\ sall (except " ") u = true
          /\ strings.Contains curlCommand
               ("--request" ++ sp1 ++ m ++ sp2 ++ "--url" ++ sp3 ++ u) = true).
Proof.
  split.
  - unfold Main.method_and_url.
    destruct (FindStringSubmatch_inv Main.reMethodAndUrl curlCommand)
      as [->|(p & t & caps & rest & -> & Ht & ->)]; [now left|].
    apply Main_reMethodAndUrl_inv in Ht as (m & u & -> & -> & H1 & H2 & H3).
    right. exists m, u. repeat split; auto. apply Contains_infix.
  - unfold Part000.method_and_url.
    destruct (FindStringSubmatch_inv Part000.reMethodAndUrl curlCommand)
      as [->|(p & t & caps & rest & -> & Ht & ->)]; [now left|].
    apply Part000_reMethodAndUrl_inv in Ht
      as (sp1 & m & sp2 & sp3 & u & -> & -> & H1 & H2 & H3 & H4 & H5 & H6 & H7).
    right. exists sp1, m, sp2, sp3, u. repeat split; try tauto.
    apply Contains_infix.
Qed.

Lemma braces_inv lit t caps rest :
  match_here (Lit lit @@ Cap (Lit "{" @@ Star false dot @@ Lit "}") @@ Lit "'") t
  = Some (caps, rest) ->
  exists a,
    t = (lit ++ "{" ++ a ++ "}" ++ "'") ++ rest /\ caps = ["{" ++ a ++ "}"]
    /\ sall dot a = true.
Proof.
  unfold match_here. rewrite run_seq. intros H.
  apply run_lit_inv in H as (s1 & -> & H). rewrite run_seq in H.
  apply run_cap_braces_inv in H as (a & s2 & -> & Ha & H).
  apply run_lit_inv in H as (s3 & -> & H). injection H as <- <-.
  exists a. repeat split; auto. now rewrite !sapp_assoc.
Qed.

Lemma data_inv lit s :
  let re := Lit lit @@ Cap (Lit "{" @@ Star false dot @@ Lit "}") @@ Lit "'" in
  FindStringSubmatch re s = []
  \/ exists a,
      FindStringSubmatch re s = [lit ++ "{" ++ a ++ "}" ++ "'"; "{" ++ a ++ "}"]
      /\ sall dot a = true
      /\ strings.Contains s (lit ++ "{" ++ a ++ "}" ++ "'") = true.
Proof.
  cbn zeta.
  destruct (FindStringSubmatch_inv
              (Lit lit @@ Cap (Lit "{" @@ Star false dot @@ Lit "}") @@ Lit "'") s)
    as [->|(p & t & caps & rest & -> & Ht & ->)]; [now left|].
  apply braces_inv in Ht as (a & -> & -> & Ha).
  right. exists a. split; [|split; [exact Ha | apply Contains_infix]].
  unfold matched. now rewrite stake_matched.
Qed.

(** X14: the body of a record: without a payload, or with a payload in braces
    that stands between quotes after the option of the variant. *)
Theorem body_sound (curlCommand : string) :
  (Main.body_of curlCommand = {| mode := "none"; raw := "" |}
   \/ exists a,
       Main.body_of curlCommand = {| mode := "raw"; raw := "{" ++ a ++ "}" |}
       /\ strings.Contains curlCommand ("--data-raw '" ++ "{" ++ a ++ "}" ++ "'") = true)
  /\ (Part000.rawData_of curlCommand = ""
      \/ exists a,
          Part000.rawData_of curlCommand = "{" ++ a ++ "}"
          /\ (strings.Contains curlCommand ("--data '" ++ "{" ++ a ++ "}" ++ "'") = true
              \/ strings.Contains curlCommand
                   ("--data-raw '" ++ "{" ++ a ++ "}" ++ "'") = true)).
Proof.
  split.
  - unfold Main.body_of, reDataRaw.
    destruct (data_inv "--data-raw '" curlCommand) as [->|(a & -> & _ & H)];
      [now left|].
    right. exists a. split; [reflexivity | exact H].
  - unfold Part000.rawData_of, Part000.reData, reDataRaw.
    destruct (data_inv "--data '" curlCommand) as [->|(a & -> & _ & H)].
    + cbn [length Nat.eqb].
      destruct (data_inv "--data-raw '" curlCommand) as [->|(a & -> & _ & H)];
        [now left|].
      right. exists a. split; [reflexivity | now right].
    + right. exists a. split; [reflexivity | now left].
Qed.

End Extraction.

(** ** The fields of a record

    The statements above are about the parts of [parseCurlCommand]; the
    ones below are about the record it returns. *)

Section Records.

(** [parseCurlCommand] with the pair of method and URL taken apart. *)
Lemma Main_parseCurlCommand_eq range cmd :
  Main.parseCurlCommand range cmd
  = option_map
      (fun parsedUrl =>
         {| name := "Generated from Curl";
            disableBodyPruning := true;
            request :=
              {| method := fst (Main.method_and_url (normalize cmd));
                 header := headers_of (normalize cmd);
                 body := Main.body_of (normalize cmd);
                 url_ :=
                   {| protocol := url.Scheme parsedUrl;
                      host := [url.Hostname parsedUrl];
                      port := url.Port parsedUrl;
                      path := [strings.TrimLeft (url.Path parsedUrl) "/"];
                      query := Main.query_entries
                                 (url.Query parsedUrl)
                                 (range (url.Query parsedUrl)) |} |};
            response := [] |})
      (url.Parse (with_scheme (snd (Main.method_and_url (normalize cmd))))).
Proof.
  unfold Main.parseCurlCommand.
  destruct (Main.method_and_url (normalize cmd)) as [m e]. cbn [fst snd].
  now destruct (url.Parse (with_scheme e)).
Qed.

Lemma Part000_parseCurlCommand_eq cmd :
  Part000.parseCurlCommand cmd
  = match url.Parse (with_scheme (snd (Part000.method_and_url (normalize cmd)))) with
    | None => None
    | Some parsedUrl =>
        if is_empty (url.Hostname parsedUrl) then None
        else
          Some {| name := Part000.name_of parsedUrl;
                  disableBodyPruning := true;
                  request :=
                    {| method := fst (Part000.method_and_url (normalize cmd));
                       header := headers_of (normalize cmd);
                       body := {| mode := "raw";
                                  raw := Part000.rawData_of (normalize cmd) |};
                       url_ :=
                         {| protocol := url.Scheme parsedUrl;
                            host := [url.Hostname parsedUrl];
                            port := url.Port parsedUrl;
                            path := [strings.TrimLeft (url.Path parsedUrl) "/"];
                            query := url.Query parsedUrl |} |};
                  response := [] |}
    end.
Proof.
  unfold Part000.parseCurlCommand.
  now destruct (Part000.method_and_url (normalize cmd)) as [m e].
Qed.



Lemma Main_body range cmd it :
  Main.parseCurlCommand range cmd = Some it ->
  body (request it) = Main.body_of (normalize cmd).
Proof.
  rewrite Main_parseCurlCommand_eq.
  destruct (url.Parse _); [|discriminate]. now intros [= <-].
Qed.

Lemma Part000_body cmd it :
  Part000.parseCurlCommand cmd = Some it ->
  body (request it)
  = {| mode := "raw"; raw := Part000.rawData_of (normalize cmd) |}.
Proof.
  rewrite Part000_parseCurlCommand_eq.
  destruct (url.Parse _); [|discriminate].
  destruct (is_empty _); [discriminate|]. now intros [= <-].
Qed.

(** ** A literal without a space survives the normalizer *)

Local Abbreviation no_space lit := (sall (fun c => negb (Ascii.eqb c " ")) lit).






Lemma normalize_dot cmd : sall regexp.dot (normalize cmd) = true.
Proof.
  unfold normalize. rewrite replace_newlines.
  apply newlines_to_spaces_no_newline.
Qed.

(** ** The header list of a record *)




(** ** Method and URL of a record *)









(** ** The body of a record *)

Lemma data_none lit s :
  (forall a, strings.Contains s (lit ++ "{" ++ a ++ "}" ++ "'") = false) ->
  regexp.FindStringSubmatch
    (regexp.Lit lit
     @@ regexp.Cap (regexp.Lit "{" @@ regexp.Star false regexp.dot @@ regexp.Lit "}")
     @@ regexp.Lit "'") s
  = [].
Proof.
  intros H. destruct (data_inv lit s) as [E|(a & _ & _ & Hc)]; [exact E|].
  now rewrite H in Hc.
Qed.

Lemma data_first lit pre a rest :
  unbordered lit = true -> strings.Contains pre lit = false ->
  sall regexp.dot (pre ++ lit ++ "{" ++ a ++ "}" ++ "'" ++ rest) = true ->
  strings.Contains a "}'" = false ->
  regexp.FindStringSubmatch
    (regexp.Lit lit
     @@ regexp.Cap (regexp.Lit "{" @@ regexp.Star false regexp.dot @@ regexp.Lit "}")
     @@ regexp.Lit "'")
    (pre ++ lit ++ "{" ++ a ++ "}" ++ "'" ++ rest)
  = [lit ++ "{" ++ a ++ "}" ++ "'"; "{" ++ a ++ "}"].
Proof.
  intros Hun Hpre Hdot Ha. apply data_found; auto.
  rewrite !sall_app in Hdot.
  apply andb_prop in Hdot as [_ Hdot]. apply andb_prop in Hdot as [_ Hdot].
  apply andb_prop in Hdot as [_ Hdot]. now apply andb_prop in Hdot as [Hdot _].
Qed.

(** C4, amended: the body of the record that each variant builds.  In
    [src/main.go]: when the normalized command holds no [--data-raw '{...}']
    the body has mode [none] and an empty content; when its first
    [--data-raw '] is followed by braces and a quote, the body has mode
    [raw] and the content is the text from the opening brace to the first
    closing brace that a quote follows.  In [src/unnamed/part_000] the
    mode is always [raw]; the content is empty when the command holds
    neither [--data '{...}'] nor [--data-raw '{...}'], it is that text
    after the first [--data '], and after the first [--data-raw '] when
    the command holds no [--data '{...}']. *)
Theorem body_per_variant :
  (forall range cmd it,
      (forall a, strings.Contains (normalize cmd)
                   ("--data-raw '" ++ "{" ++ a ++ "}" ++ "'") = false) ->
      Main.parseCurlCommand range cmd = Some it ->
      body (request it) = {| mode := "none"; raw := "" |})
  /\ (forall range cmd it pre a rest,
         normalize cmd = pre ++ "--data-raw '" ++ "{" ++ a ++ "}" ++ "'" ++ rest ->
         strings.Contains pre "--data-raw '" = false ->
         strings.Contains a "}'" = false ->
         Main.parseCurlCommand range cmd = Some it ->
         body (request it) = {| mode := "raw"; raw := "{" ++ a ++ "}" |})
  /\ (forall cmd it,
         (forall a, strings.Contains (normalize cmd)
                      ("--data '" ++ "{" ++ a ++ "}" ++ "'") = false) ->
         (forall a, strings.Contains (normalize cmd)
                      ("--data-raw '" ++ "{" ++ a ++ "}" ++ "'") = false) ->
         Part000.parseCurlCommand cmd = Some it ->
         body (request it) = {| mode := "raw"; raw := "" |})
  /\ (forall cmd it pre a rest,
         normalize cmd = pre ++ "--data '" ++ "{" ++ a ++ "}" ++ "'" ++ rest ->
         strings.Contains pre "--data '" = false ->
         strings.Contains a "}'" = false ->
         Part000.parseCurlCommand cmd = Some it ->
         body (request it) = {| mode := "raw"; raw := "{" ++ a ++ "}" |})
  /\ (forall cmd it pre a rest,
         (forall a', strings.Contains (normalize cmd)
                       ("--data '" ++ "{" ++ a' ++ "}" ++ "'") = false) ->
         normalize cmd = pre ++ "--data-raw '" ++ "{" ++ a ++ "}" ++ "'" ++ rest ->
         strings.Contains pre "--data-raw '" = false ->
         strings.Contains a "}'" = false ->
         Part000.parseCurlCommand cmd = Some it ->
         body (request it) = {| mode := "raw"; raw := "{" ++ a ++ "}" |})
  /\ (forall cmd it,
         Part000.parseCurlCommand cmd = Some it ->
         mode (body (request it)) = "raw").
Proof.
  split; [|split; [|split; [|split; [|split]]]].
  - intros range cmd it Hno Hit. rewrite (Main_body _ _ _ Hit).
    unfold Main.body_of, reDataRaw. now rewrite data_none.
  - intros range cmd it pre a rest Hc Hpre Ha Hit. rewrite (Main_body _ _ _ Hit).
    pose proof (normalize_dot cmd) as Hdot. rewrite Hc in Hdot |- *.
    unfold Main.body_of, reDataRaw. now rewrite data_first.
  - intros cmd it Hno1 Hno2 Hit. rewrite (Part000_body _ _ Hit).
    unfold Part000.rawData_of, Part000.reData, reDataRaw.
    now rewrite !data_none.
  - intros cmd it pre a rest Hc Hpre Ha Hit. rewrite (Part000_body _ _ Hit).
    pose proof (normalize_dot cmd) as Hdot. rewrite Hc in Hdot |- *.
    unfold Part000.rawData_of, Part000.reData. now rewrite data_first.
  - intros cmd it pre a rest Hno Hc Hpre Ha Hit. rewrite (Part000_body _ _ Hit).
    pose proof (normalize_dot cmd) as Hdot.
    unfold Part000.rawData_of, Part000.reData, reDataRaw.
    rewrite (data_none "--data '") by exact Hno. cbn [length Nat.eqb].
    rewrite Hc in Hdot |- *. now rewrite data_first.
  - intros cmd it Hit. now rewrite (Part000_body _ _ Hit).
Qed.

Lemma body_per_variant_witness :
  (exists it,
      Main.parseCurlCommand Main.range_up "curl --request GET 'http://a.com'"
      = Some it
      /\ body (request it) = {| mode := "none"; raw := "" |})
  /\ (exists it,
         Part000.parseCurlCommand
           ("curl --request POST --url http://a.com --data-raw '{"
              ++ String DQUOTE "a" ++ String DQUOTE ":1}'")
         = Some it
         /\ body (request it)
            = {| mode := "raw";
                 raw := "{" ++ (String DQUOTE "a" ++ String DQUOTE ":1") ++ "}" |}).
Proof.
  split.
  - eexists. split; [vm_compute; reflexivity|].
    apply (proj1 body_per_variant Main.range_up
                 "curl --request GET 'http://a.com'");
      [|vm_compute; reflexivity].
    intros a. now apply (Contains_longer _ "--data-raw '").
  - eexists. split; [vm_compute; reflexivity|].
    apply (proj1 (proj2 (proj2 (proj2 (proj2 body_per_variant))))
                 ("curl --request POST --url http://a.com --data-raw '{"
                    ++ String DQUOTE "a" ++ String DQUOTE ":1}'")
                 _ "curl --request POST --url http://a.com "
                 (String DQUOTE "a" ++ String DQUOTE ":1") "");
      [|reflexivity|reflexivity|reflexivity|vm_compute; reflexivity].
    intros a'. now apply (Contains_longer _ "--data '").
Defined.

(** ** The name of a record *)

(** X5: the name of a record.  In [src/unnamed/part_000] it is the text
    that follows the last slash of the path of the parsed URL once the
    slashes at its two ends are cut: it holds no slash, the trimmed path
    is that name after a text that is empty or ends with a slash, and
    the name is empty exactly when the path holds nothing but slashes,
    the placeholder never being used.  In [src/main.go] it is the
    placeholder. *)
Theorem name_is_last_segment :
  (forall cmd it,
      Part000.parseCurlCommand cmd = Some it ->
      exists parsedUrl,
        url.Parse (with_scheme (snd (Part000.method_and_url (normalize cmd))))
        = Some parsedUrl
        /\ strings.Contains (name it) "/" = false
        /\ (exists pre,
               strings.Trim (url.Path parsedUrl) "/" = pre ++ name it
               /\ (is_empty pre = true \/ strings.HasSuffix pre "/" = true))
        /\ is_empty (name it)
           = sall (fun c => Ascii.eqb c "/") (url.Path parsedUrl))
  /\ (forall range cmd it,
         Main.parseCurlCommand range cmd = Some it ->
         name it = "Generated from Curl").
Proof.
  split.
  - intros cmd it. rewrite Part000_parseCurlCommand_eq.
    destruct (url.Parse _) as [p|]; [|discriminate].
    destruct (is_empty _); [discriminate|]. intros [= <-].
    exists p. split; [reflexivity|]. cbn [name].
    apply name_of_last_segment.
  - intros range cmd it. rewrite Main_parseCurlCommand_eq.
    destruct (url.Parse _); [|discriminate]. now intros [= <-].
Qed.

Lemma name_is_last_segment_witness :
  exists it,
    Part000.parseCurlCommand "curl --request GET --url http://a.com/api/users/"
    = Some it
    /\ name it = "users"
    /\ strings.Contains (name it) "/" = false.
Proof.
  eexists. split; [vm_compute; reflexivity|]. split; [vm_compute; reflexivity|].
  destruct (proj1 name_is_last_segment
                  "curl --request GET --url http://a.com/api/users/" _
                  ltac:(vm_compute; reflexivity)) as (p & _ & H & _).
  exact H.
Defined.

End Records.
